(** * Gitlab-analyze: the commit-statistics pipeline of pkg/gitlab

    A shallow embedding of [GetProjectCommitStats], [MergeProjectStats]
    (pkg/gitlab), [ExportStatsToCSV] (pkg/excel) and the [analyze] command
    (cmd/main.go), with the properties of the dedup-and-attribution loop,
    of the cross-project merge and of the error paths.

    Go maps are finite maps ([gmap]); Go's [int] is a 64-bit two's
    complement integer, a [Z] with its wrap-around written out. *)

From Stdlib Require Import ZArith String Ascii DecimalString DecimalZ.
From stdpp Require Import gmap strings list fin_maps.

Local Open Scope Z_scope.

(** ** Go's [int] *)

Definition int_min : Z := - 2 ^ 63.
Definition int_max : Z := 2 ^ 63 - 1.

Definition in_int (z : Z) : Prop := int_min ≤ z ≤ int_max.

(** The value of a mathematical integer once stored in an [int]. *)
Definition wrap (z : Z) : Z := (z - int_min) `mod` 2 ^ 64 + int_min.

(** [a + b] and [a += b] on [int]. *)
Definition int_add (a b : Z) : Z := wrap (a + b).

Infix "+!" := int_add (at level 50, left associativity).

(** ** Data model (pkg/gitlab) *)

Module CommitStats.
Record t := mk { Additions : Z; Deletions : Z; Total : Z }.
Definition zero : t := mk 0 0 0.
End CommitStats.

Module Commit.
Record t := mk {
  ID : string;
  AuthorName : string;
  Stats : CommitStats.t;
  ParentIDs : list string;
  Message : string
}.
End Commit.

Module CommitIdentifier.
Record t := mk {
  Message : string;
  AuthorName : string;
  Stats : CommitStats.t
}.
End CommitIdentifier.

Module ProjectStats.
Record t := mk { Additions : Z; Deletions : Z; Changes : Z }.
Definition zero : t := mk 0 0 0.
End ProjectStats.

Module UserStats.
Record t := mk {
  Additions : Z;
  Deletions : Z;
  Changes : Z;
  Total : Z;
  Projects : gmap string ProjectStats.t
}.
(** The zero value; a nil [Projects] map reads as the empty map. *)
Definition zero : t := mk 0 0 0 0 ∅.
End UserStats.

#[global] Instance CommitStats_eq_dec : EqDecision CommitStats.t.
Proof. solve_decision. Defined.

#[global] Instance CommitStats_countable : Countable CommitStats.t.
Proof.
  refine (inj_countable'
    (λ s, (CommitStats.Additions s, CommitStats.Deletions s, CommitStats.Total s))
    (λ p, CommitStats.mk p.1.1 p.1.2 p.2) _).
  by intros [].
Defined.

#[global] Instance CommitIdentifier_eq_dec : EqDecision CommitIdentifier.t.
Proof. solve_decision. Defined.

#[global] Instance CommitIdentifier_countable : Countable CommitIdentifier.t.
Proof.
  refine (inj_countable'
    (λ s, (CommitIdentifier.Message s, CommitIdentifier.AuthorName s,
           CommitIdentifier.Stats s))
    (λ p, CommitIdentifier.mk p.1.1 p.1.2 p.2) _).
  by intros [].
Defined.

(** Errors: what [doRequest], [json.Unmarshal] and the file system report,
    the two fatal errors of the listing goroutine, and the errors of
    pkg/excel. *)
Inductive error : Type :=
  | RequestError (msg : string)
  | UnmarshalError
  | ListFetchError (page : nat) (cause : error)
  | ListDecodeError (page : nat) (cause : error)
  | IOError (msg : string)
  | ExcelError (cause : error)
  | ExportError (cause : error).

(** The local struct [commitWork] of [GetProjectCommitStats]. *)
Module commitWork.
Record t := mk {
  message : string;
  commit : Commit.t;
  stats : CommitStats.t;
  err : option error
}.
End commitWork.

(** ** Map reads *)

(** [m[k]] on a [map[K]bool]: an absent key reads as [false]. *)
Definition flag `{Countable K} (m : gmap K bool) (k : K) : bool :=
  default false (m !! k).

(** [m[k]] on a map of structs: an absent key reads as the zero value. *)
Definition user_at (m : gmap string UserStats.t) (k : string) : UserStats.t :=
  default UserStats.zero (m !! k).

Definition project_at (m : gmap string ProjectStats.t) (k : string) : ProjectStats.t :=
  default ProjectStats.zero (m !! k).

(** ** The dedup-and-attribution loop of [GetProjectCommitStats] *)

Module Reducer.

(** The three maps the result loop owns. *)
Record state := mk {
  stats : gmap string UserStats.t;
  processedCommits : gmap string bool;
  commitSignatures : gmap CommitIdentifier.t bool
}.

Definition init : state := mk ∅ ∅ ∅.

Definition identifier_of (work : commitWork.t) : CommitIdentifier.t :=
  let commit := commitWork.commit work in
  CommitIdentifier.mk (Commit.Message commit) (Commit.AuthorName commit)
                      (commitWork.stats work).

(** [for _, parentID := range commit.ParentIDs { if processedCommits[parentID]
    { hasProcessedParent = true; break } }] *)
Fixpoint hasProcessedParent (processedCommits : gmap string bool)
    (parentIDs : list string) : bool :=
  match parentIDs with
  | [] => false
  | parentID :: rest =>
      if flag processedCommits parentID then true
      else hasProcessedParent processedCommits rest
  end.

(** The statistics update at the end of the loop body. *)
Definition account (projectID : string) (stats : gmap string UserStats.t)
    (author : string) (diff : CommitStats.t) : gmap string UserStats.t :=
  let stats1 :=
    match stats !! author with
    | Some _ => stats
    | None => <[author := UserStats.mk 0 0 0 0 ∅]> stats
    end in
  let userStats := user_at stats1 author in
  let additions := UserStats.Additions userStats +! CommitStats.Additions diff in
  let deletions := UserStats.Deletions userStats +! CommitStats.Deletions diff in
  let changes := UserStats.Changes userStats +! CommitStats.Total diff in
  let total := UserStats.Total userStats
               +! (CommitStats.Additions diff +! CommitStats.Deletions diff) in
  let projects1 :=
    match UserStats.Projects userStats !! projectID with
    | Some _ => UserStats.Projects userStats
    | None => <[projectID := ProjectStats.zero]> (UserStats.Projects userStats)
    end in
  let projectStats := project_at projects1 projectID in
  let projectStats' :=
    ProjectStats.mk
      (ProjectStats.Additions projectStats +! CommitStats.Additions diff)
      (ProjectStats.Deletions projectStats +! CommitStats.Deletions diff)
      (ProjectStats.Changes projectStats +! CommitStats.Total diff) in
  let projects2 := <[projectID := projectStats']> projects1 in
  <[author := UserStats.mk additions deletions changes total projects2]> stats1.

(** One iteration of [for work := range resultChan]. *)
Definition step (projectID : string) (st : state) (work : commitWork.t) : state :=
  match commitWork.err work with
  | Some _ => st
  | None =>
      let commit := commitWork.commit work in
      let identifier := identifier_of work in
      if flag (commitSignatures st) identifier then st
      else
        let signatures := <[identifier := true]> (commitSignatures st) in
        if (1 <? length (Commit.ParentIDs commit))%nat
           && hasProcessedParent (processedCommits st) (Commit.ParentIDs commit)
        then mk (stats st) (processedCommits st) signatures
        else if flag (processedCommits st) (Commit.ID commit)
        then mk (stats st) (processedCommits st) signatures
        else
          mk (account projectID (stats st) (Commit.AuthorName commit)
                      (commitWork.stats work))
             (<[Commit.ID commit := true]> (processedCommits st))
             signatures
  end.

(** The whole loop, over the results in their order of arrival. *)
Definition run (projectID : string) (st : state) (works : list commitWork.t) : state :=
  foldl (step projectID) st works.

(** Whether the iteration on [work] reaches the statistics update. *)
Definition counts (st : state) (work : commitWork.t) : bool :=
  match commitWork.err work with
  | Some _ => false
  | None =>
      negb (flag (commitSignatures st) (identifier_of work))
      && negb ((1 <? length (Commit.ParentIDs (commitWork.commit work)))%nat
               && hasProcessedParent (processedCommits st)
                    (Commit.ParentIDs (commitWork.commit work)))
      && negb (flag (processedCommits st) (Commit.ID (commitWork.commit work)))
  end.

(** The results that reached the statistics update, in order. *)
Fixpoint counted (projectID : string) (st : state) (works : list commitWork.t)
    : list commitWork.t :=
  match works with
  | [] => []
  | work :: rest =>
      if counts st work
      then work :: counted projectID (step projectID st work) rest
      else counted projectID (step projectID st work) rest
  end.

End Reducer.

(** ** [MergeProjectStats] *)

Module Merge.
Section merge.

(** The order in which [for k, v := range m] visits a map. Go leaves it
    unspecified; every order is an enumeration of the map's entries. *)
Variable range : ∀ A : Type, gmap string A → list (string * A).

(** [for _, user := range targetUsers { targetUsersMap[user] = true }] *)
Definition targetUsersMap (targetUsers : list string) : gmap string bool :=
  if (0 <? length targetUsers)%nat
  then foldl (λ m user, <[user := true]> m) ∅ targetUsers
  else ∅.

(** Body of [for projectID, projectData := range data.Projects], on the
    map object [mergedStats[author].Projects]. *)
Definition merge_project (projects : gmap string ProjectStats.t)
    (entry : string * ProjectStats.t) : gmap string ProjectStats.t :=
  let '(projectID, projectData) := entry in
  let projects1 :=
    match projects !! projectID with
    | Some _ => projects
    | None => <[projectID := ProjectStats.zero]> projects
    end in
  let projectStats := project_at projects1 projectID in
  <[projectID :=
      ProjectStats.mk
        (ProjectStats.Additions projectStats +! ProjectStats.Additions projectData)
        (ProjectStats.Deletions projectStats +! ProjectStats.Deletions projectData)
        (ProjectStats.Changes projectStats +! ProjectStats.Changes projectData)]>
    projects1.

(** Body of [for author, data := range stats]. *)
Definition merge_author (targets : gmap string bool)
    (mergedStats : gmap string UserStats.t) (entry : string * UserStats.t)
    : gmap string UserStats.t :=
  let '(author, data) := entry in
  if (0 <? size targets)%nat && negb (flag targets author) then mergedStats
  else
    let merged1 :=
      match mergedStats !! author with
      | Some _ => mergedStats
      | None => <[author := UserStats.mk 0 0 0 0 ∅]> mergedStats
      end in
    let userStats := user_at merged1 author in
    let userStats' :=
      UserStats.mk
        (UserStats.Additions userStats +! UserStats.Additions data)
        (UserStats.Deletions userStats +! UserStats.Deletions data)
        (UserStats.Changes userStats +! UserStats.Changes data)
        (UserStats.Total userStats +! UserStats.Total data)
        (UserStats.Projects userStats) in
    let merged2 := <[author := userStats']> merged1 in
    let projects' :=
      foldl merge_project (UserStats.Projects (user_at merged2 author))
            (range _ (UserStats.Projects data)) in
    <[author :=
        UserStats.mk (UserStats.Additions userStats') (UserStats.Deletions userStats')
                     (UserStats.Changes userStats') (UserStats.Total userStats')
                     projects']> merged2.

(** Body of [for _, stats := range projectsStats]. *)
Definition merge_stats (targets : gmap string bool)
    (mergedStats : gmap string UserStats.t) (stats : gmap string UserStats.t)
    : gmap string UserStats.t :=
  foldl (merge_author targets) mergedStats (range _ stats).

Definition MergeProjectStats (projectsStats : list (gmap string UserStats.t))
    (targetUsers : list string) : gmap string UserStats.t :=
  foldl (merge_stats (targetUsersMap targetUsers)) ∅ projectsStats.

End merge.
End Merge.

(** ** The pipeline of [GetProjectCommitStats] *)

(** What [doRequest] returns: a body, or an error. *)
Inductive response : Type :=
  | Body (body : string)
  | Failed (e : error).

(** The calls [GetProjectCommitStats] makes through [doRequest]. [seq] is the
    position of the commit in the listing, which tells apart the detail
    requests of a commit listed twice. *)
Inductive request : Type :=
  | ListCommits (projectID since until : string) (page : nat)
  | CommitDetail (projectID commitID : string) (seq : nat).

(** The remote side: the answer to each attempt of each call. *)
Definition transport : Type := request → nat → response.

(** A computation that may panic, with [Panic] ending the process. *)
Inductive exec (A : Type) : Type :=
  | Ok (a : A)
  | Panic.
Arguments Ok {A} a.
Arguments Panic {A}.

#[global] Instance exec_ret : MRet exec := λ A a, Ok a.
#[global] Instance exec_bind : MBind exec := λ A B f m,
  match m with
  | Ok a => f a
  | Panic => Panic
  end.

(** [s[:n]] on a Go string: a run-time panic when [n > len(s)]. *)
Definition slice_to (s : string) (n : nat) : exec string :=
  if (n <=? String.length s)%nat then Ok (substring 0 n s) else Panic.

(** What one call of [GetProjectCommitStats] does. *)
Inductive outcome : Type :=
  | OutOfFuel
  | Panicked
  | Stats (stats : gmap string UserStats.t)
  | Fatal (err : error).

Definition maxRetries : nat := 5.

Module Pipeline.
Section pipeline.

(** [json.Unmarshal(body, &commits)] and [json.Unmarshal(body, &commitDetail)];
    [None] is a decoding error. *)
Variable decode_commits : string → option (list Commit.t).
Variable decode_commit : string → option Commit.t.

Variable fetch : transport.

(** The order in which the workers' results reach the result loop. *)
Variable arrival : list commitWork.t → list commitWork.t.

Variables projectID startDate endDate : string.

(** [for retry := 0; retry < maxRetries; retry++] of the listing goroutine;
    [left] is [maxRetries - retry], [last] the current [body, err]. *)
Fixpoint list_attempts (page retry left : nat) (last : response) : response :=
  match left with
  | O => last
  | S left' =>
      match fetch (ListCommits projectID startDate endDate page) retry with
      | Body body => Body body
      | Failed e => list_attempts page (S retry) left' (Failed e)
      end
  end.

(** The listing goroutine from page [page] on: the commits it sends to
    [commitChan] and what it sends to [errChan]. [None]: out of fuel. *)
Fixpoint lister (fuel page : nat) : option (list Commit.t * option error) :=
  match fuel with
  | O => None
  | S fuel' =>
      match list_attempts page 0 maxRetries (Body "") with
      | Failed e => Some ([], Some (ListFetchError page e))
      | Body body =>
          match decode_commits body with
          | None => Some ([], Some (ListDecodeError page UnmarshalError))
          | Some [] => Some ([], None)
          | Some commits =>
              match lister fuel' (S page) with
              | None => None
              | Some (more, fatal) => Some (commits ++ more, fatal)
              end
          end
      end
  end.

(** The retry loop of a worker; the retry message formats [commit.ID[:8]]. *)
Fixpoint detail_attempts (commit : Commit.t) (seq retry left : nat)
    (last : response) : exec response :=
  match left with
  | O => Ok last
  | S left' =>
      _ ← (if (0 <? retry)%nat then slice_to (Commit.ID commit) 8 else Ok "");
      match fetch (CommitDetail projectID (Commit.ID commit) seq) retry with
      | Body body => Ok (Body body)
      | Failed e => detail_attempts commit seq (S retry) left' (Failed e)
      end
  end.

(** The body of a worker's [for commit := range commitChan]. *)
Definition process_commit (seq : nat) (commit : Commit.t) : exec commitWork.t :=
  r ← detail_attempts commit seq 0 maxRetries (Body "");
  match r with
  | Failed e =>
      _ ← slice_to (Commit.ID commit) 8;
      Ok (commitWork.mk "" commit CommitStats.zero (Some e))
  | Body body =>
      match decode_commit body with
      | None =>
          _ ← slice_to (Commit.ID commit) 8;
          Ok (commitWork.mk "" commit CommitStats.zero (Some UnmarshalError))
      | Some commitDetail =>
          Ok (commitWork.mk "" commit (Commit.Stats commitDetail) None)
      end
  end.

(** The worker pool on the commits of [commitChan], numbered from [seq]. *)
Fixpoint workers (seq : nat) (commits : list Commit.t) : exec (list commitWork.t) :=
  match commits with
  | [] => Ok []
  | commit :: rest =>
      work ← process_commit seq commit;
      works ← workers (S seq) rest;
      Ok (work :: works)
  end.

Definition GetProjectCommitStats (fuel : nat) : outcome :=
  match lister fuel 1 with
  | None => OutOfFuel
  | Some (commits, fatal) =>
      match workers 0 commits with
      | Panic => Panicked
      | Ok works =>
          let st := Reducer.run projectID Reducer.init (arrival works) in
          match fatal with
          | Some err => Fatal err
          | None => Stats (Reducer.stats st)
          end
      end
  end.

End pipeline.
End Pipeline.

(** ** [ExportStatsToCSV] (pkg/excel) *)

Module ProjectInfo.
Record t := mk { ID : string; Name : string; PathWithNamespace : string }.
End ProjectInfo.

(** A data line of a report; the four numbers are printed with [%d]. *)
Module Row.
Record t := mk {
  user : string;
  projectName : string;
  projectPath : string;
  additions : Z;
  deletions : Z;
  changes : Z;
  total : Z
}.
End Row.

(** The file system as the export sees it: whether [os.MkdirAll] fails,
    whether [os.Create] fails for a user's file, and whether the write of
    line [n] of that file fails (line 0 is the header). *)
Record filesystem := {
  mkdir_all : option error;
  create : string → option error;
  write : string → nat → option error
}.

Module Excel.
Section export_csv.

Variable range : ∀ A : Type, gmap string A → list (string * A).
Variable fs : filesystem.
Variable projects : list ProjectInfo.t.

(** [for _, project := range projects { if project.ID == projectID {...; break} }] *)
Fixpoint find_project (ps : list ProjectInfo.t) (projectID : string) : string * string :=
  match ps with
  | [] => (""%string, ""%string)
  | project :: rest =>
      if decide (ProjectInfo.ID project = projectID)
      then (ProjectInfo.Name project, ProjectInfo.PathWithNamespace project)
      else find_project rest projectID
  end.

(** [for projectID, projectStat := range stat.Projects], from line [n] on:
    the rows written and the error that stopped the loop. *)
Fixpoint write_rows (user : string) (n : nat)
    (entries : list (string * ProjectStats.t)) : list Row.t * option error :=
  match entries with
  | [] => ([], None)
  | (projectID, projectStat) :: rest =>
      let '(projectName, projectPath) := find_project projects projectID in
      let row :=
        Row.mk user projectName projectPath
               (ProjectStats.Additions projectStat)
               (ProjectStats.Deletions projectStat)
               (ProjectStats.Changes projectStat)
               (ProjectStats.Additions projectStat +! ProjectStats.Deletions projectStat) in
      match write fs user n with
      | Some e => ([], Some (ExportError e))
      | None =>
          let '(rows, err) := write_rows user (S n) rest in
          (row :: rows, err)
      end
  end.

(** [for user, stat := range stats]: the files created, with their rows. *)
Fixpoint export_users (entries : list (string * UserStats.t))
    : list (string * list Row.t) * option error :=
  match entries with
  | [] => ([], None)
  | (user, stat) :: rest =>
      match create fs user with
      | Some e => ([], Some (ExportError e))
      | None =>
          match write fs user 0 with
          | Some e => ([(user, [])], Some (ExportError e))
          | None =>
              match write_rows user 1 (range _ (UserStats.Projects stat)) with
              | (rows, Some e) => ([(user, rows)], Some e)
              | (rows, None) =>
                  let '(files, err) := export_users rest in
                  ((user, rows) :: files, err)
              end
          end
      end
  end.

Definition ExportStatsToCSV (stats : gmap string UserStats.t)
    (startDate endDate : string) : list (string * list Row.t) * option error :=
  match mkdir_all fs with
  | Some e => ([], Some (ExportError e))
  | None => export_users (range _ stats)
  end.

End export_csv.
End Excel.

(** ** The [analyze] command (cmd/main.go) *)

(** The remote side of one project run. *)
Record remote := {
  remote_fetch : transport;
  remote_arrival : list commitWork.t → list commitWork.t
}.

(** Why [analyze] called [os.Exit(1)]. *)
Inductive failure : Type :=
  | BadStartDate
  | BadEndDate
  | ReadProjectsFailed (err : error)
  | ExportFailed (err : error).

(** How a run of [analyze] ends. [Finished] is the normal return of [Run],
    with the warnings printed, the merged statistics and the files written. *)
Inductive cmd_result : Type :=
  | Exit1 (why : failure)
  | CmdPanicked
  | CmdOutOfFuel
  | Finished (warnings : list (string * error))
             (mergedStats : gmap string UserStats.t)
             (files : list (string * list Row.t)).

(** How the loop over the project IDs ends. *)
Inductive runs_result : Type :=
  | RunsPanicked
  | RunsOutOfFuel
  | RunsDone (projectsStats : list (gmap string UserStats.t))
             (warnings : list (string * error)).

Module Analyze.
Section analyze.

(** Library functions and the outside world. *)
Variable parse_date : string → bool.
Variable Split : string → string → list string.
Variable TrimSpace : string → string.
Variable GetProjectsFromExcel : string → list ProjectInfo.t + error.
Variable decode_commits : string → option (list Commit.t).
Variable decode_commit : string → option Commit.t.
Variable range : ∀ A : Type, gmap string A → list (string * A).
Variable remotes : nat → remote.
Variable fs : filesystem.
Variable fuel : nat.

(** The flags and the environment variable [TARGET_USERS]. *)
Variables projects startDate endDate projectFile TARGET_USERS : string.

(** [for i, projectID := range projectIDs], from index [i] on. *)
Fixpoint run_projects (i : nat) (projectIDs : list string)
    (projectsStats : list (gmap string UserStats.t))
    (warnings : list (string * error)) : runs_result :=
  match projectIDs with
  | [] => RunsDone projectsStats warnings
  | projectID :: rest =>
      let projectID := TrimSpace projectID in
      match Pipeline.GetProjectCommitStats decode_commits decode_commit
              (remote_fetch (remotes i)) (remote_arrival (remotes i))
              projectID startDate endDate fuel with
      | OutOfFuel => RunsOutOfFuel
      | Panicked => RunsPanicked
      | Fatal err =>
          run_projects (S i) rest projectsStats (warnings ++ [(projectID, err)])
      | Stats stats =>
          run_projects (S i) rest (projectsStats ++ [stats]) warnings
      end
  end.

Definition targetUsers : list string :=
  if decide (TARGET_USERS = ""%string) then []
  else TrimSpace <$> Split TARGET_USERS ","%string.

Definition analyzeCmd : cmd_result :=
  if negb (parse_date startDate) then Exit1 BadStartDate
  else if negb (parse_date endDate) then Exit1 BadEndDate
  else
    match GetProjectsFromExcel projectFile with
    | inr err => Exit1 (ReadProjectsFailed err)
    | inl projectsInfo =>
        match run_projects 0 (Split projects ","%string) [] [] with
        | RunsPanicked => CmdPanicked
        | RunsOutOfFuel => CmdOutOfFuel
        | RunsDone projectsStats warnings =>
            let mergedStats :=
              Merge.MergeProjectStats range projectsStats targetUsers in
            match Excel.ExportStatsToCSV range fs projectsInfo
                    mergedStats startDate endDate with
            | (_, Some err) => Exit1 (ExportFailed err)
            | (files, None) => Finished warnings mergedStats files
            end
        end
    end.

End analyze.
End Analyze.


(** ** Vocabulary of the properties *)

(** How often commit ID [id] occurs in a sequence of results. *)
Definition listed_times (id : string) (works : list commitWork.t) : nat :=
  length (filter (λ work, Commit.ID (commitWork.commit work) = id) works).

(** How often a result with commit ID [id] reaches the statistics update
    in a run of the result loop from the initial state. *)
Definition counted_times (projectID id : string) (works : list commitWork.t) : nat :=
  listed_times id (Reducer.counted projectID Reducer.init works).

(** The statistics update applied to each of [works] in turn. *)
Definition accumulate (projectID : string) (stats : gmap string UserStats.t)
    (works : list commitWork.t) : gmap string UserStats.t :=
  foldl (λ acc work,
           Reducer.account projectID acc
             (Commit.AuthorName (commitWork.commit work)) (commitWork.stats work))
        stats works.

(** The shape of an author's entry in the result of one project run. *)
Definition single_project (projectID : string) (u : UserStats.t) : Prop :=
  dom (UserStats.Projects u) = {[projectID]} ∧
  UserStats.Additions u
  = ProjectStats.Additions (project_at (UserStats.Projects u) projectID) ∧
  UserStats.Deletions u
  = ProjectStats.Deletions (project_at (UserStats.Projects u) projectID) ∧
  UserStats.Changes u
  = ProjectStats.Changes (project_at (UserStats.Projects u) projectID) ∧
  UserStats.Total u = UserStats.Additions u +! UserStats.Deletions u.

Section listing_vocabulary.

Variable decode_commits : string → option (list Commit.t).
Variable fetch : transport.
Variables projectID startDate endDate : string.



(** Page [page] is obtained within the retries and decodes to the
    non-empty list [commits]. *)
Definition page_lists (page : nat) (commits : list Commit.t) : Prop :=
  ∃ body,
    Pipeline.list_attempts fetch projectID startDate endDate page 0 maxRetries (Body "")
    = Body body ∧
    decode_commits body = Some commits ∧
    commits ≠ [].

End listing_vocabulary.

(** The merge in closed form: the sum of two project entries, of two
    project maps and of two author entries, and the allow-list test. *)
Definition add_project (p q : ProjectStats.t) : ProjectStats.t :=
  ProjectStats.mk
    (ProjectStats.Additions p +! ProjectStats.Additions q)
    (ProjectStats.Deletions p +! ProjectStats.Deletions q)
    (ProjectStats.Changes p +! ProjectStats.Changes q).

Definition add_projects (P Q : gmap string ProjectStats.t) : gmap string ProjectStats.t :=
  merge (λ p q, match q with
                | Some q => Some (add_project (default ProjectStats.zero p) q)
                | None => p
                end) P Q.

Definition add_user (u d : UserStats.t) : UserStats.t :=
  UserStats.mk
    (UserStats.Additions u +! UserStats.Additions d)
    (UserStats.Deletions u +! UserStats.Deletions d)
    (UserStats.Changes u +! UserStats.Changes d)
    (UserStats.Total u +! UserStats.Total d)
    (add_projects (UserStats.Projects u) (UserStats.Projects d)).

Definition allowed (targets : gmap string bool) (author : string) : bool :=
  negb ((0 <? size targets)%nat && negb (flag targets author)).

(** Every number of an author entry is a value of [int]. *)
Definition project_in_int (p : ProjectStats.t) : Prop :=
  in_int (ProjectStats.Additions p) ∧ in_int (ProjectStats.Deletions p) ∧
  in_int (ProjectStats.Changes p).

Definition user_in_int (u : UserStats.t) : Prop :=
  in_int (UserStats.Additions u) ∧ in_int (UserStats.Deletions u) ∧
  in_int (UserStats.Changes u) ∧ in_int (UserStats.Total u) ∧
  ∀ k p, UserStats.Projects u !! k = Some p → project_in_int p.

(** What holds of every entry of a map the merge has built. *)
Definition merged_ok (targets : gmap string bool)
    (merged : gmap string UserStats.t) : Prop :=
  ∀ a u, merged !! a = Some u → allowed targets a = true ∧ user_in_int u.

(** An enumeration function visits exactly the entries of each map. *)
Definition enumerates (range : ∀ A : Type, gmap string A → list (string * A)) : Prop :=
  ∀ (A : Type) (m : gmap string A), range A m ≡ₚ map_to_list m.

Section analyze_vocabulary.

Variable TrimSpace : string → string.
Variable decode_commits : string → option (list Commit.t).
Variable decode_commit : string → option Commit.t.
Variable remotes : nat → remote.
Variable fuel : nat.
Variables startDate endDate : string.

(** What the run of the [i]-th listed project does. *)
Definition project_outcome (i : nat) (rawID : string) : outcome :=
  Pipeline.GetProjectCommitStats decode_commits decode_commit
    (remote_fetch (remotes i)) (remote_arrival (remotes i))
    (TrimSpace rawID) startDate endDate fuel.

(** The maps of the project runs that succeeded, from index [i] on. *)
Fixpoint succeeded (i : nat) (projectIDs : list string)
    : list (gmap string UserStats.t) :=
  match projectIDs with
  | [] => []
  | rawID :: rest =>
      match project_outcome i rawID with
      | Stats stats => stats :: succeeded (S i) rest
      | _ => succeeded (S i) rest
      end
  end.

(** The project runs that failed, with their errors, from index [i] on. *)
Fixpoint failed (i : nat) (projectIDs : list string) : list (string * error) :=
  match projectIDs with
  | [] => []
  | rawID :: rest =>
      match project_outcome i rawID with
      | Fatal err => (TrimSpace rawID, err) :: failed (S i) rest
      | _ => failed (S i) rest
      end
  end.

(** Every project run returns: with a map or with an error. *)
Definition all_return (i : nat) (projectIDs : list string) : Prop :=
  ∀ k rawID, projectIDs !! k = Some rawID →
             (∃ stats, project_outcome (i + k) rawID = Stats stats) ∨
             (∃ err, project_outcome (i + k) rawID = Fatal err).

End analyze_vocabulary.


(** * Further vocabulary *)

(** The results that carry no error. *)
Definition successful (works : list commitWork.t) : list commitWork.t :=
  filter (λ work, commitWork.err work = None) works.

(** The results of [works] whose commit has author [author]. *)
Definition by_author (author : string) (works : list commitWork.t) : list commitWork.t :=
  filter (λ work, Commit.AuthorName (commitWork.commit work) = author) works.

(** The sum, as an integer, of [f] over the diff statistics of [works]. *)
Definition diff_sum (f : CommitStats.t → Z) (works : list commitWork.t) : Z :=
  foldr (λ work acc, f (commitWork.stats work) + acc) 0 works.

(** The statistics update on one author entry, in closed form. *)
Definition bump (projectID : string) (u : UserStats.t) (diff : CommitStats.t)
    : UserStats.t :=
  let p := project_at (UserStats.Projects u) projectID in
  UserStats.mk
    (UserStats.Additions u +! CommitStats.Additions diff)
    (UserStats.Deletions u +! CommitStats.Deletions diff)
    (UserStats.Changes u +! CommitStats.Total diff)
    (UserStats.Total u +! (CommitStats.Additions diff +! CommitStats.Deletions diff))
    (<[projectID :=
         ProjectStats.mk
           (ProjectStats.Additions p +! CommitStats.Additions diff)
           (ProjectStats.Deletions p +! CommitStats.Deletions diff)
           (ProjectStats.Changes p +! CommitStats.Total diff)]>
       (UserStats.Projects u)).

(** No successful result of [works] is a merge commit. *)
Definition no_merges (works : list commitWork.t) : Prop :=
  ∀ work, work ∈ works → commitWork.err work = None →
          (length (Commit.ParentIDs (commitWork.commit work)) ≤ 1)%nat.

(** Successful results of [works] with the same commit ID have the same
    message, author and diff statistics. *)
Definition id_fixes_signature (works : list commitWork.t) : Prop :=
  ∀ w1 w2, w1 ∈ works → w2 ∈ works →
           commitWork.err w1 = None → commitWork.err w2 = None →
           Commit.ID (commitWork.commit w1) = Commit.ID (commitWork.commit w2) →
           Reducer.identifier_of w1 = Reducer.identifier_of w2.

(** What the loop state keeps of the results still to come: an ID marked as
    processed has its signature marked as seen. *)
Definition linked (st : Reducer.state) (works : list commitWork.t) : Prop :=
  ∀ work, work ∈ works → commitWork.err work = None →
          flag (Reducer.processedCommits st) (Commit.ID (commitWork.commit work)) = true →
          flag (Reducer.commitSignatures st) (Reducer.identifier_of work) = true.

(** The retry loop on an arbitrary call: [call retry] is the answer to
    attempt number [retry]. *)
Fixpoint attempts (call : nat → response) (retry left : nat) (last : response)
    : response :=
  match left with
  | O => last
  | S left' =>
      match call retry with
      | Body body => Body body
      | Failed e => attempts call (S retry) left' (Failed e)
      end
  end.

(** Attempt [k] is the first that succeeds, with body [body]. *)
Definition first_success (call : nat → response) (k : nat) (body : string) : Prop :=
  (k < maxRetries)%nat ∧ call k = Body body ∧
  ∀ j, (j < k)%nat → ∃ e, call j = Failed e.

(** All [maxRetries] attempts fail, the last one with error [e]. *)
Definition all_fail (call : nat → response) (e : error) : Prop :=
  (∀ j, (j < maxRetries)%nat → ∃ e', call j = Failed e') ∧
  call (maxRetries - 1)%nat = Failed e.

(** Page [page] is obtained within the retries and decodes to no commit. *)
Definition page_empty (decode_commits : string → option (list Commit.t))
    (fetch : transport) (projectID startDate endDate : string) (page : nat) : Prop :=
  ∃ body,
    Pipeline.list_attempts fetch projectID startDate endDate page 0 maxRetries (Body "")
    = Body body ∧
    decode_commits body = Some [].

(** The sum, as an integer, of [f] over the entries that the maps of
    [projectsStats] hold for [author]. *)
Definition merge_sum (f : UserStats.t → Z) (author : string)
    (projectsStats : list (gmap string UserStats.t)) : Z :=
  foldr (λ stats acc, match stats !! author with
                      | Some u => f u + acc
                      | None => acc
                      end) 0 projectsStats.

(** A field of the entry of project [projectID] in an author entry, zero
    when the author has no such entry. *)
Definition project_field (f : ProjectStats.t → Z) (projectID : string)
    (u : UserStats.t) : Z :=
  f (project_at (UserStats.Projects u) projectID).

(** The data line the export writes for one project entry of a user. *)
Definition row_of (projects : list ProjectInfo.t) (user : string)
    (entry : string * ProjectStats.t) : Row.t :=
  Row.mk user
    (Excel.find_project projects entry.1).1
    (Excel.find_project projects entry.1).2
    (ProjectStats.Additions entry.2)
    (ProjectStats.Deletions entry.2)
    (ProjectStats.Changes entry.2)
    (ProjectStats.Additions entry.2 +! ProjectStats.Deletions entry.2).

(** The file the export writes for one author entry when nothing fails. *)
Definition file_of (range : ∀ A : Type, gmap string A → list (string * A))
    (projects : list ProjectInfo.t) (entry : string * UserStats.t)
    : string * list Row.t :=
  (entry.1, row_of projects entry.1 <$> range _ (UserStats.Projects entry.2)).


(** ** [truncateString] (cmd/main.go) *)

(** A string as the sequence of its runes, [[]rune(s)]. *)
Definition rune : Type := Z.

(** The runes of ["..."]. *)
Definition dots : list rune := [46; 46; 46].

(** [runes[:n]] for an index [n] of type [int]: a run-time panic when [n]
    is negative or beyond the slice. Where [truncateString] takes this slice
    the index is below the length or, after wrap-around, above every
    capacity. *)
Definition slice_runes_to (runes : list rune) (n : Z) : exec (list rune) :=
  if (0 <=? n) && (n <=? Z.of_nat (length runes))
  then Ok (take (Z.to_nat n) runes)
  else Panic.

Definition truncateString (s : list rune) (maxLen : Z) : exec (list rune) :=
  if Z.of_nat (length s) <=? maxLen then Ok s
  else
    kept ← slice_runes_to s (wrap (maxLen - 3));
    Ok (kept ++ dots).

(** ** [GetProjects] (pkg/gitlab) *)

(** The errors [GetProjects] returns. *)
Inductive projects_error : Type :=
  | PageFetchError (page : string) (cause : error)
  | PageDecodeError (page : string)
  | ExistingDecodeError
  | MergeEncodeError.

(** How a call of [GetProjects] ends; the bytes returned are [None] for the
    nil slice. *)
Inductive projects_result : Type :=
  | ProjectsOutOfFuel
  | ProjectsError (e : projects_error)
  | ProjectsOk (allProjects : option string).

Section get_projects.

(** The decoded elements of a JSON array ([interface{}]), with
    [json.Unmarshal] into [[]interface{}] and [json.Marshal] of it;
    [None] is an error. *)
Variable J : Type.
Variable unmarshal : string → option (list J).
Variable marshal : list J → option string.

(** [strconv.Atoi], with zero for what is no number (its error is
    ignored), and [strconv.Itoa]. *)
Variable Atoi : string → Z.
Variable Itoa : Z → string.

(** The answer to each attempt of [doRequest("GET", "/projects", params)]. *)
Variable fetch_projects : gmap string string → nat → response.

(** [for { ... }] of [GetProjects]: the loop over the pages. *)
Fixpoint pages_loop (fuel : nat) (params : gmap string string)
    (allProjects : option string) : projects_result :=
  match fuel with
  | O => ProjectsOutOfFuel
  | S fuel' =>
      let page := default ""%string (params !! "page"%string) in
      match attempts (fetch_projects params) 0 maxRetries (Body "") with
      | Failed e => ProjectsError (PageFetchError page e)
      | Body body =>
          match unmarshal body with
          | None => ProjectsError (PageDecodeError page)
          | Some projects =>
              let merged : projects_error + option string :=
                if decide (page = "1"%string) then inr (Some body)
                else if (0 <? length projects)%nat then
                  match allProjects ≫= unmarshal with
                  | None => inl ExistingDecodeError
                  | Some existingProjects =>
                      match marshal (existingProjects ++ projects) with
                      | None => inl MergeEncodeError
                      | Some bytes => inr (Some bytes)
                      end
                  end
                else inr allProjects in
              match merged with
              | inl e => ProjectsError e
              | inr allProjects' =>
                  if (length projects =? 0)%nat then ProjectsOk allProjects'
                  else pages_loop fuel'
                         (<["page"%string := Itoa (Atoi page +! 1)]> params)
                         allProjects'
              end
          end
      end
  end.

(** The defaults [GetProjects] writes into [params], a map that is not nil. *)
Definition with_defaults (params : gmap string string) : gmap string string :=
  let params1 :=
    match params !! "per_page"%string with
    | Some _ => params
    | None => <["per_page"%string := "100"%string]> params
    end in
  match params1 !! "page"%string with
  | Some _ => params1
  | None => <["page"%string := "1"%string]> params1
  end.

(** [GetProjects] on a map that is not nil. *)
Definition GetProjects (fuel : nat) (params : gmap string string) : projects_result :=
  pages_loop fuel (with_defaults params) None.

(** [GetProjects] on a Go map value, [None] being the nil map: a nil map
    holds no ["per_page"] key, and the assignment of its default is an
    assignment to an entry of a nil map, a run-time panic. *)
Definition GetProjects_on (fuel : nat) (params : option (gmap string string))
    : exec projects_result :=
  match params with
  | None => Panic
  | Some m => Ok (GetProjects fuel m)
  end.

(** The page parameter of the request for page [k], counting from 1. *)
Definition page_string (k : Z) : string :=
  if decide (k = 1) then "1"%string else Itoa k.

(** The parameters of the request for page [k]. *)
Definition params_at (base : gmap string string) (k : Z) : gmap string string :=
  <["page"%string := page_string k]> base.

(** The request for page [k] is answered within the retries by a body that
    decodes to [projects]. *)
Definition projects_page (base : gmap string string) (k : Z) (projects : list J) : Prop :=
  ∃ body,
    attempts (fetch_projects (params_at base k)) 0 maxRetries (Body "") = Body body ∧
    unmarshal body = Some projects.

(** What the loop holds when it requests page [k], having gathered [gathered]. *)
Definition gathered_at (k : Z) (allProjects : option string) (gathered : list J) : Prop :=
  (k = 1 ∧ allProjects = None ∧ gathered = []) ∨
  (2 ≤ k ∧ ∃ bytes, allProjects = Some bytes ∧ unmarshal bytes = Some gathered).

(** The laws of the library functions the pagination relies on. *)
Definition decimal_laws : Prop :=
  Atoi "1"%string = 1 ∧ ∀ k, 2 ≤ k → Atoi (Itoa k) = k.

Definition json_round_trip : Prop :=
  ∀ l, ∃ bytes, marshal l = Some bytes ∧ unmarshal bytes = Some l.

End get_projects.

(** ** [GetProjectsFromExcel] (pkg/excel) *)

(** What the spreadsheet library reports for the project file: a failure
    of [OpenFile], a failure of [GetRows], or the rows of the first sheet. *)
Inductive workbook : Type :=
  | OpenFailed (e : error)
  | RowsFailed (e : error)
  | Sheet (rows : list (list string)).

(** [row[i]] on a slice: a run-time panic when [i] is out of range. *)
Definition cell (row : list string) (i : nat) : exec string :=
  match row !! i with
  | Some c => Ok c
  | None => Panic
  end.

Module ExcelFile.

(** [for i, row := range rows], from index [i] on. *)
Fixpoint rows_loop (i : nat) (rows : list (list string)) : exec (list ProjectInfo.t) :=
  match rows with
  | [] => Ok []
  | row :: rest =>
      if (i =? 0)%nat then rows_loop (S i) rest
      else if (3 <=? length row)%nat then
        id ← cell row 0;
        name ← cell row 1;
        path ← cell row 2;
        projects ← rows_loop (S i) rest;
        Ok (ProjectInfo.mk id name path :: projects)
      else rows_loop (S i) rest
  end.

Definition GetProjectsFromExcel (file : workbook)
    : exec (list ProjectInfo.t + error) :=
  match file with
  | OpenFailed e => Ok (inr (ExcelError e))
  | RowsFailed e => Ok (inr (ExcelError e))
  | Sheet rows =>
      projects ← rows_loop 0 rows;
      Ok (inl projects)
  end.

End ExcelFile.

(** The project a row stands for: its first three cells, when it has them. *)
Definition row_project (row : list string) : option ProjectInfo.t :=
  match row with
  | id :: name :: path :: _ => Some (ProjectInfo.mk id name path)
  | _ => None
  end.

(** ** [GetProjectsFromExcel] of excel.go (package main) *)

Module RootExcel.

Record ProjectInfo := mk {
  ID : string;
  Name : string;
  Namespace : string;
  PathWithNamespace : string
}.

Inductive sheet_error : Type :=
  | FileNotFound
  | OpenError (e : error)
  | ReadRowsError (e : error)
  | EmptySheet
  | MissingColumn (col : string).

Definition col_name : string := "项目名称".
Definition col_id : string := "项目ID".
Definition col_group : string := "项目分组".
Definition col_path : string := "项目路径".

Definition requiredColumns : list string := [col_name; col_id; col_group; col_path].

(** [for i, header := range headers { columnMap[header] = i }], from index
    [i] on. *)
Fixpoint index_headers (i : nat) (headers : list string) (columnMap : gmap string nat)
    : gmap string nat :=
  match headers with
  | [] => columnMap
  | header :: rest => index_headers (S i) rest (<[header := i]> columnMap)
  end.

(** [for _, col := range requiredColumns]: the first column that
    [columnMap] does not hold. *)
Fixpoint first_missing (columnMap : gmap string nat) (cols : list string)
    : option string :=
  match cols with
  | [] => None
  | col :: rest =>
      match columnMap !! col with
      | Some _ => first_missing columnMap rest
      | None => Some col
      end
  end.

(** [columnMap[col]]: an absent key reads as zero. *)
Definition column (columnMap : gmap string nat) (col : string) : nat :=
  default 0%nat (columnMap !! col).

(** [for _, row := range rows[1:]]. *)
Fixpoint parse_rows (headers : list string) (columnMap : gmap string nat)
    (rows : list (list string)) : exec (list ProjectInfo) :=
  match rows with
  | [] => Ok []
  | row :: rest =>
      if (length row <? length headers)%nat then parse_rows headers columnMap rest
      else
        id ← cell row (column columnMap col_id);
        name ← cell row (column columnMap col_name);
        namespace ← cell row (column columnMap col_group);
        path ← cell row (column columnMap col_path);
        projects ← parse_rows headers columnMap rest;
        Ok (mk id name namespace path :: projects)
  end.

(** [file_exists] is false when [os.Stat] reports that the file does not
    exist. The header row is [rows[0]], read once the sheet is known to
    have two rows. *)
Definition GetProjectsFromExcel (file_exists : bool) (file : workbook)
    : exec (list ProjectInfo + sheet_error) :=
  if negb file_exists then Ok (inr FileNotFound)
  else
    match file with
    | OpenFailed e => Ok (inr (OpenError e))
    | RowsFailed e => Ok (inr (ReadRowsError e))
    | Sheet rows =>
        if (length rows <? 2)%nat then Ok (inr EmptySheet)
        else
          match rows with
          | [] => Panic
          | headers :: data =>
              let columnMap := index_headers 0 headers ∅ in
              match first_missing columnMap requiredColumns with
              | Some col => Ok (inr (MissingColumn col))
              | None =>
                  projects ← parse_rows headers columnMap data;
                  Ok (inl projects)
              end
          end
    end.

End RootExcel.

(** * Example inputs *)

Module Examples.

Local Open Scope string_scope.

Definition ok (commit : Commit.t) (diff : CommitStats.t) : commitWork.t :=
  commitWork.mk "" commit diff None.

Definition diff_a : CommitStats.t := CommitStats.mk 10 2 12.
Definition diff_b : CommitStats.t := CommitStats.mk 3 4 9.

(** A root commit, its child, and a merge of the two. *)
Definition commit0 : Commit.t :=
  Commit.mk "c0c0c0c0c0" "alice" CommitStats.zero [] "initial import".
Definition commit1 : Commit.t :=
  Commit.mk "c1c1c1c1c1" "alice" CommitStats.zero ["c0c0c0c0c0"] "add parser".
Definition commit2 : Commit.t :=
  Commit.mk "c2c2c2c2c2" "bob" CommitStats.zero ["c1c1c1c1c1"; "c0c0c0c0c0"]
            "sync branches".

(** A merge whose parents are not listed. *)
Definition merge_first : Commit.t :=
  Commit.mk "d0d0d0d0d0" "bob" CommitStats.zero ["eeeeeeeeee"; "ffffffffff"]
            "merge upstream".

(** A commit with the message and author of [commit2] under another ID. *)
Definition commit3 : Commit.t :=
  Commit.mk "c3c3c3c3c3" "bob" CommitStats.zero [] "sync branches".

(** A commit with the message and author of [commit0] under another ID. *)
Definition commit4 : Commit.t :=
  Commit.mk "c4c4c4c4c4" "alice" CommitStats.zero [] "initial import".

(** The loop state once [commit0] has been counted. *)
Definition after_commit0 : Reducer.state :=
  Reducer.step "42" Reducer.init (ok commit0 diff_a).

(** The merge [commit2] and the commit [commit3] that repeats its
    message and author, with the same diff. *)
Definition merge_work : commitWork.t := ok commit2 diff_b.
Definition repeat_work : commitWork.t := ok commit3 diff_b.

(** [commit4] listed twice after [commit0], all with the same diff. *)
Definition twice_listed : list commitWork.t :=
  [ok commit0 diff_a; ok commit4 diff_a; ok commit4 diff_a].

(** [commit0] listed twice, as on two pages of the listing. *)
Definition twice_paged : list commitWork.t :=
  [ok commit0 diff_a; ok commit1 diff_b; ok commit0 diff_a].

(** A commit whose ID has fewer than eight characters. *)
Definition short_commit : Commit.t :=
  Commit.mk "abc123" "carol" CommitStats.zero [] "hotfix".

(** Stand-ins for [json.Unmarshal] on the bodies the example servers send. *)
Definition decode_commits (body : string) : option (list Commit.t) :=
  if decide (body = "page1") then Some [commit0; commit1]
  else if decide (body = "page2") then Some [commit2]
  else if decide (body = "short") then Some [short_commit]
  else if decide (body = "[]") then Some []
  else None.

Definition decode_commit (body : string) : option Commit.t :=
  if decide (body = "detail_a") then Some (Commit.mk "" "" diff_a [] "")
  else if decide (body = "detail_b") then Some (Commit.mk "" "" diff_b [] "")
  else None.

(** A server with two pages of commits that answers every request. *)
Definition healthy : transport := λ req _,
  match req with
  | ListCommits _ _ _ 1 => Body "page1"
  | ListCommits _ _ _ 2 => Body "page2"
  | ListCommits _ _ _ _ => Body "[]"
  | CommitDetail _ _ 0 => Body "detail_a"
  | CommitDetail _ _ _ => Body "detail_b"
  end.


(** A server whose listing fails from page 1 on. *)
Definition all_down : transport := λ _ _, Failed (RequestError "connection refused").

(** A server that lists [short_commit] and fails every detail request. *)
Definition short_listing : transport := λ req _,
  match req with
  | ListCommits _ _ _ 1 => Body "short"
  | ListCommits _ _ _ _ => Body "[]"
  | CommitDetail _ _ _ => Failed (RequestError "timeout")
  end.


(** Results reach the loop in the order of the listing. *)
Definition in_order (works : list commitWork.t) : list commitWork.t := works.

(** Three per-project results. *)
Definition stats_A : gmap string UserStats.t :=
  {[ "alice" := UserStats.mk 10 2 12 12 {[ "1" := ProjectStats.mk 10 2 12 ]} ]}.
Definition stats_B : gmap string UserStats.t :=
  {[ "alice" := UserStats.mk 3 4 9 7 {[ "2" := ProjectStats.mk 3 4 9 ]};
     "bob" := UserStats.mk 1 1 2 2 {[ "2" := ProjectStats.mk 1 1 2 ]} ]}.
Definition stats_C : gmap string UserStats.t :=
  {[ "bob" := UserStats.mk 5 0 5 5 {[ "1" := ProjectStats.mk 5 0 5 ]} ]}.

(** The enumeration of a map in the order of its representation. *)
Definition in_map_order : ∀ A : Type, gmap string A → list (string * A) :=
  λ A m, map_to_list m.

(** Stand-ins for [strings.Split] with separator [","], for
    [strings.TrimSpace] on blanks, for [time.Parse] and for the reading of
    the project file. *)
Fixpoint split_comma (s : string) : list string :=
  match s with
  | EmptyString => [EmptyString]
  | String c rest =>
      if Ascii.eqb c ","%char then EmptyString :: split_comma rest
      else match split_comma rest with
           | [] => [String c EmptyString]
           | w :: ws => String c w :: ws
           end
  end.

Definition Split (s sep : string) : list string := split_comma s.

Fixpoint trim_left (s : string) : string :=
  match s with
  | String c rest => if Ascii.eqb c " "%char then trim_left rest else s
  | EmptyString => EmptyString
  end.

Definition reverse_string (s : string) : string :=
  string_of_list_ascii (rev (list_ascii_of_string s)).

Definition TrimSpace (s : string) : string :=
  reverse_string (trim_left (reverse_string (trim_left s))).

Definition parse_date (s : string) : bool := (String.length s =? 10)%nat.

Definition read_projects (file : string) : list ProjectInfo.t + error :=
  inl [ProjectInfo.mk "42" "parser" "tools/parser"].

(** A file system on which every operation succeeds. *)
Definition disk : filesystem :=
  {| mkdir_all := None; create := λ _, None; write := λ _ _, None |}.

(** Project runs against servers that are all down. *)
Definition remotes_down : nat → remote := λ _, Build_remote all_down in_order.

(** The first project run against the healthy server, the others against
    servers that are down. *)
Definition remotes_mixed : nat → remote := λ i,
  match i with
  | O => Build_remote healthy in_order
  | S _ => Build_remote all_down in_order
  end.

(** A file system on which the output directory cannot be created. *)
Definition read_only_disk : filesystem :=
  {| mkdir_all := Some (IOError "read-only file system");
     create := λ _, None; write := λ _ _, None |}.

(** Decimal [strconv.Itoa] and [strconv.Atoi]. *)
Definition Itoa (z : Z) : string := NilEmpty.string_of_int (Z.to_int z).

Definition Atoi (s : string) : Z :=
  match NilEmpty.int_of_string s with
  | Some d => Z.of_int d
  | None => 0
  end.

(** A JSON stand-in: an array is the string of its elements, each one
    character. *)
Definition unmarshal_chars (body : string) : option (list ascii) :=
  Some (list_ascii_of_string body).

Definition marshal_chars (l : list ascii) : option string :=
  Some (string_of_list_ascii l).

(** A server with two pages of projects that answers every request. *)
Definition projects_server : gmap string string → nat → response := λ params _,
  let page := default "" (params !! "page") in
  if decide (page = "1") then Body "ab"
  else if decide (page = "2") then Body "c"
  else Body "".

(** The same server with every request for page 2 failing. *)
Definition projects_page2_down : gmap string string → nat → response :=
  λ params attempt,
  if decide (default "" (params !! "page") = "2") then Failed (RequestError "502")
  else projects_server params attempt.

End Examples.
(** * Properties *)

(** ** Arithmetic of [int] *)

Lemma wrap_add_l (a b : Z) : wrap (wrap a + b) = wrap (a + b).
Proof.
  unfold wrap.
  replace ((a - int_min) `mod` 2 ^ 64 + int_min + b - int_min)
    with ((a - int_min) `mod` 2 ^ 64 + b) by lia.
  rewrite Zplus_mod_idemp_l. do 2 f_equal. lia.
Qed.

Lemma wrap_add_r (a b : Z) : wrap (a + wrap b) = wrap (a + b).
Proof. rewrite (Z.add_comm a), wrap_add_l. f_equal. lia. Qed.

Lemma wrap_in_int (z : Z) : in_int (wrap z).
Proof.
  unfold wrap, in_int, int_min, int_max.
  pose proof (Z.mod_pos_bound (z - - 2 ^ 63) (2 ^ 64)). lia.
Qed.

Lemma wrap_exact (z : Z) : in_int z → wrap z = z.
Proof.
  unfold wrap, in_int, int_min, int_max. intros Hz.
  rewrite Z.mod_small; lia.
Qed.

Lemma int_add_comm (a b : Z) : a +! b = b +! a.
Proof. unfold int_add. f_equal. lia. Qed.

Lemma int_add_assoc (a b c : Z) : a +! b +! c = a +! (b +! c).
Proof. unfold int_add. rewrite wrap_add_l, wrap_add_r. f_equal. lia. Qed.

Lemma int_add_swap (a b c : Z) : a +! b +! c = a +! c +! b.
Proof. rewrite !int_add_assoc. f_equal. apply int_add_comm. Qed.

Lemma int_add_exact (a b : Z) : in_int (a + b) → a +! b = a + b.
Proof. apply wrap_exact. Qed.

Lemma int_add_in_int (a b : Z) : in_int (a +! b).
Proof. apply wrap_in_int. Qed.

Lemma int_add_pairs (a b c d : Z) : (a +! b) +! (c +! d) = (a +! c) +! (b +! d).
Proof.
  unfold int_add. rewrite !wrap_add_l, !wrap_add_r. f_equal. lia.
Qed.

(** ** The statistics update *)

Section account_facts.
Context (projectID : string) (stats : gmap string UserStats.t)
        (author : string) (diff : CommitStats.t).

(** The update in closed form: one entry of the author map and one entry
    of that author's project map are overwritten. *)
Lemma account_eq :
  Reducer.account projectID stats author diff =
  let old := user_at stats author in
  let oldp := project_at (UserStats.Projects old) projectID in
  <[author :=
      UserStats.mk
        (UserStats.Additions old +! CommitStats.Additions diff)
        (UserStats.Deletions old +! CommitStats.Deletions diff)
        (UserStats.Changes old +! CommitStats.Total diff)
        (UserStats.Total old
         +! (CommitStats.Additions diff +! CommitStats.Deletions diff))
        (<[projectID :=
             ProjectStats.mk
               (ProjectStats.Additions oldp +! CommitStats.Additions diff)
               (ProjectStats.Deletions oldp +! CommitStats.Deletions diff)
               (ProjectStats.Changes oldp +! CommitStats.Total diff)]>
           (UserStats.Projects old))]> stats.
Proof.
  unfold Reducer.account, user_at, project_at. cbv zeta.
  destruct (stats !! author) as [u|] eqn:Hu; simpl.
  - rewrite Hu; simpl.
    destruct (UserStats.Projects u !! projectID) as [p|] eqn:Hp; simpl.
    + by rewrite Hp.
    + by rewrite lookup_insert_eq, insert_insert_eq.
  - rewrite lookup_insert_eq; simpl.
    rewrite lookup_empty, lookup_insert_eq, !insert_insert_eq. done.
Qed.

Lemma account_lookup_ne (a : string) :
  a ≠ author → Reducer.account projectID stats author diff !! a = stats !! a.
Proof. intros Hne. rewrite account_eq. cbv zeta. by rewrite lookup_insert_ne. Qed.

End account_facts.

(** ** One iteration of the result loop *)

Lemma hasProcessedParent_true (processed : gmap string bool) (parents : list string) :
  Reducer.hasProcessedParent processed parents = true ↔
  ∃ p, p ∈ parents ∧ flag processed p = true.
Proof.
  induction parents as [|q parents IH]; simpl.
  - split; [done|]. intros (p & Hp & _). by apply elem_of_nil in Hp.
  - destruct (flag processed q) eqn:Hq.
    + split; [|done]. intros _. exists q. split; [left|done].
    + rewrite IH. split.
      * intros (p & Hp & Hf). exists p. split; [by right|done].
      * intros (p & Hp & Hf). apply elem_of_cons in Hp as [->|Hp]; [congruence|].
        by exists p.
Qed.

Lemma hasProcessedParent_false (processed : gmap string bool) (parents : list string) :
  Reducer.hasProcessedParent processed parents = false ↔
  ∀ p, p ∈ parents → flag processed p = false.
Proof.
  rewrite <-not_true_iff_false, hasProcessedParent_true. split.
  - intros Hno p Hp. destruct (flag processed p) eqn:Hf; [|done].
    exfalso. apply Hno. by exists p.
  - intros Hall (p & Hp & Hf). rewrite (Hall p Hp) in Hf. done.
Qed.

(** An iteration that counts runs the update and marks the ID and the signature. *)
Lemma step_counts (projectID : string) (st : Reducer.state) (work : commitWork.t) :
  Reducer.counts st work = true →
  Reducer.step projectID st work =
  Reducer.mk
    (Reducer.account projectID (Reducer.stats st)
       (Commit.AuthorName (commitWork.commit work)) (commitWork.stats work))
    (<[Commit.ID (commitWork.commit work) := true]> (Reducer.processedCommits st))
    (<[Reducer.identifier_of work := true]> (Reducer.commitSignatures st)).
Proof.
  unfold Reducer.counts, Reducer.step.
  destruct (commitWork.err work); [done|].
  destruct (flag (Reducer.commitSignatures st) _); [done|]. simpl.
  destruct ((1 <? _)%nat && Reducer.hasProcessedParent _ _); [done|]. simpl.
  destruct (flag (Reducer.processedCommits st) _); done.
Qed.

(** An iteration that does not count leaves the statistics and the
    processed IDs alone. *)
Lemma step_drops (projectID : string) (st : Reducer.state) (work : commitWork.t) :
  Reducer.counts st work = false →
  Reducer.stats (Reducer.step projectID st work) = Reducer.stats st ∧
  Reducer.processedCommits (Reducer.step projectID st work)
  = Reducer.processedCommits st.
Proof.
  unfold Reducer.counts, Reducer.step.
  destruct (commitWork.err work); [done|].
  destruct (flag (Reducer.commitSignatures st) _); [done|]. simpl.
  destruct ((1 <? _)%nat && Reducer.hasProcessedParent _ _); [done|]. simpl.
  destruct (flag (Reducer.processedCommits st) _); done.
Qed.

(** Flags are only ever set. *)
Lemma flag_insert_true `{Countable K} (m : gmap K bool) (k k' : K) :
  flag m k' = true → flag (<[k := true]> m) k' = true.
Proof.
  unfold flag. intros Hk. destruct (decide (k = k')) as [->|Hne].
  - by rewrite lookup_insert_eq.
  - by rewrite lookup_insert_ne.
Qed.

Lemma flag_insert_eq `{Countable K} (m : gmap K bool) (k : K) :
  flag (<[k := true]> m) k = true.
Proof. unfold flag. by rewrite lookup_insert_eq. Qed.

Lemma step_processed_mono (projectID : string) (st : Reducer.state)
    (work : commitWork.t) (id : string) :
  flag (Reducer.processedCommits st) id = true →
  flag (Reducer.processedCommits (Reducer.step projectID st work)) id = true.
Proof.
  intros Hid. destruct (Reducer.counts st work) eqn:Hc.
  - rewrite step_counts by done. simpl. by apply flag_insert_true.
  - by rewrite (proj2 (step_drops projectID st work Hc)).
Qed.

Lemma counts_true_iff (st : Reducer.state) (work : commitWork.t) :
  Reducer.counts st work = true ↔
  commitWork.err work = None ∧
  flag (Reducer.commitSignatures st) (Reducer.identifier_of work) = false ∧
  ¬ ((1 < length (Commit.ParentIDs (commitWork.commit work)))%nat ∧
     ∃ p, p ∈ Commit.ParentIDs (commitWork.commit work) ∧
          flag (Reducer.processedCommits st) p = true) ∧
  flag (Reducer.processedCommits st) (Commit.ID (commitWork.commit work)) = false.
Proof.
  unfold Reducer.counts. destruct (commitWork.err work).
  { split; [done|]. by intros []. }
  rewrite !andb_true_iff, !negb_true_iff, andb_false_iff.
  rewrite Nat.ltb_ge, hasProcessedParent_false.
  split.
  - intros [[Hs Hm] Hi]. repeat split; try done.
    intros [Hlen (p & Hp & Hf)]. destruct Hm as [Hm|Hm]; [lia|].
    rewrite (Hm p Hp) in Hf. done.
  - intros (_ & Hs & Hm & Hi). repeat split; try done.
    destruct (decide (1 < length (Commit.ParentIDs (commitWork.commit work)))%nat)
      as [Hlt|Hge]; [|left; lia].
    right. intros p Hp.
    destruct (flag (Reducer.processedCommits st) p) eqn:Hf; [|done].
    exfalso. apply Hm. split; [done|]. by exists p.
Qed.

(** ** The counted commit *)

(** C1. A result that reaches the statistics update (not dropped by the
    error, signature, merge-parent or duplicate-ID rule) changes the author's
    entry by additions += diff.additions, deletions += diff.deletions,
    changes += diff.total, total += diff.additions + diff.deletions, and the
    author's entry for the current project by the first three of these, with
    diff.total taken as reported. No other author and no other project of the
    author is touched. *)
Theorem counted_commit_updates (projectID : string) (st : Reducer.state)
    (work : commitWork.t) :
  Reducer.counts st work = true →
  let author := Commit.AuthorName (commitWork.commit work) in
  let diff := commitWork.stats work in
  let old := user_at (Reducer.stats st) author in
  let oldp := project_at (UserStats.Projects old) projectID in
  let stats' := Reducer.stats (Reducer.step projectID st work) in
  ∃ new newp,
    stats' !! author = Some new ∧
    UserStats.Projects new !! projectID = Some newp ∧
    UserStats.Additions new = UserStats.Additions old +! CommitStats.Additions diff ∧
    UserStats.Deletions new = UserStats.Deletions old +! CommitStats.Deletions diff ∧
    UserStats.Changes new = UserStats.Changes old +! CommitStats.Total diff ∧
    UserStats.Total new
    = UserStats.Total old +! (CommitStats.Additions diff +! CommitStats.Deletions diff) ∧
    ProjectStats.Additions newp
    = ProjectStats.Additions oldp +! CommitStats.Additions diff ∧
    ProjectStats.Deletions newp
    = ProjectStats.Deletions oldp +! CommitStats.Deletions diff ∧
    ProjectStats.Changes newp = ProjectStats.Changes oldp +! CommitStats.Total diff ∧
    (∀ p, p ≠ projectID → UserStats.Projects new !! p = UserStats.Projects old !! p) ∧
    (∀ a, a ≠ author → stats' !! a = Reducer.stats st !! a).
Proof.
  intros Hc author diff old oldp stats'.
  subst stats'. rewrite step_counts by done. simpl.
  rewrite account_eq. cbv zeta. fold author diff old oldp.
  eexists _, _. split; [apply lookup_insert_eq|]. simpl.
  split; [apply lookup_insert_eq|]. simpl.
  repeat (split; [reflexivity|]).
  split.
  - intros p Hp. by rewrite lookup_insert_ne.
  - intros a Ha. by rewrite lookup_insert_ne.
Qed.

Lemma counted_commit_updates_witness :
  Reducer.counts Examples.after_commit0
    (Examples.ok Examples.commit1 Examples.diff_b) = true ∧
  ∃ new newp,
    Reducer.stats (Reducer.step "42" Examples.after_commit0
                     (Examples.ok Examples.commit1 Examples.diff_b))
      !! "alice"%string = Some new ∧
    UserStats.Projects new !! "42"%string = Some newp ∧
    UserStats.Additions new = 10 +! 3 ∧
    UserStats.Deletions new = 2 +! 4 ∧
    UserStats.Changes new = 12 +! 9 ∧
    UserStats.Total new = 12 +! (3 +! 4) ∧
    ProjectStats.Additions newp = 10 +! 3 ∧
    ProjectStats.Deletions newp = 2 +! 4 ∧
    ProjectStats.Changes newp = 12 +! 9.
Proof.
  split; [reflexivity|].
  destruct (counted_commit_updates "42" Examples.after_commit0
              (Examples.ok Examples.commit1 Examples.diff_b) eq_refl)
    as (new & newp & H1 & H2 & H3 & H4 & H5 & H6 & H7 & H8 & H9 & _).
  exists new, newp. repeat split; assumption.
Defined.

(** ** Duplicate content *)

(** A successful result with a signature already marked is dropped with
    the loop state as it was. *)
Lemma step_seen_signature (projectID : string) (st : Reducer.state)
    (work : commitWork.t) :
  commitWork.err work = None →
  flag (Reducer.commitSignatures st) (Reducer.identifier_of work) = true →
  Reducer.counts st work = false ∧
  Reducer.step projectID st work = st.
Proof.
  intros Herr Hseen. unfold Reducer.counts, Reducer.step.
  rewrite Herr, Hseen. done.
Qed.

(** C2. A successful result whose signature (message, author name, diff
    statistics) is already marked as seen when it is handled contributes
    zero: it does not reach the statistics update, and no total of any
    author or project changes, whatever its commit ID. *)
Theorem seen_signature_contributes_nothing (projectID : string)
    (st : Reducer.state) (work : commitWork.t) :
  commitWork.err work = None →
  flag (Reducer.commitSignatures st) (Reducer.identifier_of work) = true →
  Reducer.counts st work = false ∧
  Reducer.stats (Reducer.step projectID st work) = Reducer.stats st ∧
  Reducer.step projectID st work = st.
Proof.
  intros Herr Hseen.
  destruct (step_seen_signature projectID st work Herr Hseen) as [Hc Hst].
  split; [done|]. split; [by rewrite Hst|done].
Qed.

Lemma seen_signature_contributes_nothing_witness :
  Commit.ID Examples.commit4 ≠ Commit.ID Examples.commit0 ∧
  Reducer.counts Examples.after_commit0
    (Examples.ok Examples.commit4 Examples.diff_a) = false ∧
  Reducer.stats (Reducer.step "42" Examples.after_commit0
                   (Examples.ok Examples.commit4 Examples.diff_a))
  = Reducer.stats Examples.after_commit0 ∧
  Reducer.step "42" Examples.after_commit0
    (Examples.ok Examples.commit4 Examples.diff_a) = Examples.after_commit0.
Proof.
  split; [discriminate|].
  apply (seen_signature_contributes_nothing "42" Examples.after_commit0
           (Examples.ok Examples.commit4 Examples.diff_a)); reflexivity.
Defined.

(** ** Merge commits *)

(** What the statistics update writes: the author's entry and the author's
    entry for the project, each number the old one plus the diff's, and
    nothing else. *)
Lemma account_updates (projectID : string) (stats : gmap string UserStats.t)
    (author : string) (diff : CommitStats.t) :
  let old := user_at stats author in
  let oldp := project_at (UserStats.Projects old) projectID in
  let stats' := Reducer.account projectID stats author diff in
  ∃ new newp,
    stats' !! author = Some new ∧
    UserStats.Projects new !! projectID = Some newp ∧
    UserStats.Additions new = UserStats.Additions old +! CommitStats.Additions diff ∧
    UserStats.Deletions new = UserStats.Deletions old +! CommitStats.Deletions diff ∧
    UserStats.Changes new = UserStats.Changes old +! CommitStats.Total diff ∧
    UserStats.Total new
    = UserStats.Total old +! (CommitStats.Additions diff +! CommitStats.Deletions diff) ∧
    ProjectStats.Additions newp
    = ProjectStats.Additions oldp +! CommitStats.Additions diff ∧
    ProjectStats.Deletions newp
    = ProjectStats.Deletions oldp +! CommitStats.Deletions diff ∧
    ProjectStats.Changes newp = ProjectStats.Changes oldp +! CommitStats.Total diff ∧
    (∀ p, p ≠ projectID → UserStats.Projects new !! p = UserStats.Projects old !! p) ∧
    (∀ a, a ≠ author → stats' !! a = stats !! a).
Proof.
  intros old oldp stats'. subst stats'. rewrite account_eq. cbv zeta.
  fold old oldp.
  eexists _, _. split; [apply lookup_insert_eq|]. simpl.
  split; [apply lookup_insert_eq|]. simpl.
  repeat (split; [reflexivity|]).
  split.
  - intros p Hp. by rewrite lookup_insert_ne.
  - intros a Ha. by rewrite lookup_insert_ne.
Qed.

(** C3. A successful result with more than one parent ID contributes nothing
    when one of its parents is marked as processed: no total of any author
    or project changes. When none of its parents is marked, and its
    signature and its ID are new, it contributes its full diff statistics:
    the author's additions, deletions, changes and total grow by
    diff.additions, diff.deletions, diff.total and diff.additions +
    diff.deletions, the author's entry for the project grows by the first
    three, and no other author or project changes. *)
Theorem merge_commit_rule (projectID : string) (st : Reducer.state)
    (work : commitWork.t) :
  commitWork.err work = None →
  (1 < length (Commit.ParentIDs (commitWork.commit work)))%nat →
  ((∃ p, p ∈ Commit.ParentIDs (commitWork.commit work) ∧
         flag (Reducer.processedCommits st) p = true) →
   Reducer.counts st work = false ∧
   Reducer.stats (Reducer.step projectID st work) = Reducer.stats st) ∧
  ((∀ p, p ∈ Commit.ParentIDs (commitWork.commit work) →
         flag (Reducer.processedCommits st) p = false) →
   flag (Reducer.commitSignatures st) (Reducer.identifier_of work) = false →
   flag (Reducer.processedCommits st) (Commit.ID (commitWork.commit work)) = false →
   let author := Commit.AuthorName (commitWork.commit work) in
   let diff := commitWork.stats work in
   let old := user_at (Reducer.stats st) author in
   let oldp := project_at (UserStats.Projects old) projectID in
   let stats' := Reducer.stats (Reducer.step projectID st work) in
   Reducer.counts st work = true ∧
   stats' = Reducer.account projectID (Reducer.stats st) author diff ∧
   ∃ new newp,
     stats' !! author = Some new ∧
     UserStats.Projects new !! projectID = Some newp ∧
     UserStats.Additions new = UserStats.Additions old +! CommitStats.Additions diff ∧
     UserStats.Deletions new = UserStats.Deletions old +! CommitStats.Deletions diff ∧
     UserStats.Changes new = UserStats.Changes old +! CommitStats.Total diff ∧
     UserStats.Total new
     = UserStats.Total old
       +! (CommitStats.Additions diff +! CommitStats.Deletions diff) ∧
     ProjectStats.Additions newp
     = ProjectStats.Additions oldp +! CommitStats.Additions diff ∧
     ProjectStats.Deletions newp
     = ProjectStats.Deletions oldp +! CommitStats.Deletions diff ∧
     ProjectStats.Changes newp = ProjectStats.Changes oldp +! CommitStats.Total diff ∧
     (∀ p, p ≠ projectID → UserStats.Projects new !! p = UserStats.Projects old !! p) ∧
     (∀ a, a ≠ author → stats' !! a = Reducer.stats st !! a)).
Proof.
  intros Herr Hlen. split.
  - intros Hp.
    assert (Reducer.counts st work = false) as Hc.
    { apply not_true_iff_false. rewrite counts_true_iff.
      intros (_ & _ & Hm & _). by apply Hm. }
    split; [done|]. by apply step_drops.
  - intros Hnone Hsig Hid author diff old oldp stats'.
    assert (Reducer.counts st work = true) as Hc.
    { apply counts_true_iff. repeat split; try done.
      intros [_ (p & Hp & Hf)]. rewrite (Hnone p Hp) in Hf. done. }
    assert (stats' = Reducer.account projectID (Reducer.stats st) author diff) as Heq.
    { subst stats'. by rewrite step_counts. }
    split; [done|]. split; [done|]. rewrite Heq.
    apply account_updates.
Qed.

Lemma merge_commit_rule_witness :
  (Reducer.counts Examples.after_commit0
     (Examples.ok Examples.commit2 Examples.diff_b) = false ∧
   Reducer.stats (Reducer.step "42" Examples.after_commit0
                    (Examples.ok Examples.commit2 Examples.diff_b))
   = Reducer.stats Examples.after_commit0) ∧
  (Reducer.stats Examples.after_commit0 !! "bob"%string = None ∧
   ∃ new newp,
     Reducer.stats (Reducer.step "42" Examples.after_commit0
                      (Examples.ok Examples.merge_first Examples.diff_b))
       !! "bob"%string = Some new ∧
     UserStats.Projects new !! "42"%string = Some newp ∧
     UserStats.Additions new = 3 ∧
     UserStats.Deletions new = 4 ∧
     UserStats.Changes new = 9 ∧
     UserStats.Total new = 7 ∧
     ProjectStats.Additions newp = 3 ∧
     ProjectStats.Deletions newp = 4 ∧
     ProjectStats.Changes newp = 9 ∧
     Reducer.stats (Reducer.step "42" Examples.after_commit0
                      (Examples.ok Examples.merge_first Examples.diff_b))
       !! "alice"%string
     = Reducer.stats Examples.after_commit0 !! "alice"%string).
Proof.
  split.
  - apply (merge_commit_rule "42" Examples.after_commit0
             (Examples.ok Examples.commit2 Examples.diff_b) eq_refl).
    + simpl. lia.
    + exists "c0c0c0c0c0"%string. split; [|reflexivity].
      simpl. right. left.
  - split; [reflexivity|].
    destruct (proj2 (merge_commit_rule "42" Examples.after_commit0
                       (Examples.ok Examples.merge_first Examples.diff_b) eq_refl
                       ltac:(simpl; lia)))
      as (_ & _ & new & newp & H1 & H2 & H3 & H4 & H5 & H6 & H7 & H8 & H9 & _ & Hframe).
    + intros p Hp. simpl in Hp.
      apply elem_of_cons in Hp as [->|Hp]; [reflexivity|].
      apply elem_of_cons in Hp as [->|Hp]; [reflexivity|].
      by apply elem_of_nil in Hp.
    + reflexivity.
    + reflexivity.
    + exists new, newp. repeat split; assumption.
Defined.

(** ** Commit IDs *)

(** The statistics of a run are the statistics update applied to the
    results that were counted, in their order. *)
Lemma run_stats_counted (projectID : string) (works : list commitWork.t)
    (st : Reducer.state) :
  Reducer.stats (Reducer.run projectID st works)
  = accumulate projectID (Reducer.stats st) (Reducer.counted projectID st works).
Proof.
  unfold Reducer.run, accumulate.
  revert st. induction works as [|work works IH]; intros st; simpl; [done|].
  destruct (Reducer.counts st work) eqn:Hc.
  - rewrite IH. simpl. by rewrite step_counts.
  - rewrite IH. by rewrite (proj1 (step_drops projectID st work Hc)).
Qed.

(** The counted results carry pairwise distinct IDs, none of them marked as
    processed before the run. *)
Lemma counted_ids_fresh (projectID : string) (works : list commitWork.t)
    (st : Reducer.state) :
  NoDup ((λ work, Commit.ID (commitWork.commit work))
           <$> Reducer.counted projectID st works) ∧
  ∀ work, work ∈ Reducer.counted projectID st works →
          flag (Reducer.processedCommits st) (Commit.ID (commitWork.commit work))
          = false.
Proof.
  revert st. induction works as [|work works IH]; intros st; simpl.
  { split; [constructor|]. intros w Hw. by apply elem_of_nil in Hw. }
  destruct (IH (Reducer.step projectID st work)) as [Hnd Hfresh].
  assert (∀ w, w ∈ Reducer.counted projectID (Reducer.step projectID st work) works →
               flag (Reducer.processedCommits st) (Commit.ID (commitWork.commit w))
               = false) as Hold.
  { intros w Hw. specialize (Hfresh w Hw).
    destruct (flag (Reducer.processedCommits st) _) eqn:Hf; [|done].
    by rewrite (step_processed_mono projectID st work _ Hf) in Hfresh. }
  destruct (Reducer.counts st work) eqn:Hc; [|done].
  split.
  - rewrite fmap_cons. constructor; [|done].
    intros Hin. apply list_elem_of_fmap in Hin as (w & Heq & Hw).
    specialize (Hfresh w Hw). rewrite step_counts in Hfresh by done.
    simpl in Hfresh. rewrite <-Heq, flag_insert_eq in Hfresh. done.
  - intros w Hw. apply elem_of_cons in Hw as [->|Hw]; [|by apply Hold].
    by apply counts_true_iff in Hc as (_ & _ & _ & Hid).
Qed.

Lemma listed_times_NoDup (id : string) (works : list commitWork.t) :
  NoDup ((λ work, Commit.ID (commitWork.commit work)) <$> works) →
  (listed_times id works ≤ 1)%nat.
Proof.
  unfold listed_times. induction works as [|work works IH]; simpl; [lia|].
  rewrite NoDup_cons. intros [Hnotin Hnd].
  rewrite filter_cons. case_decide as Hid; simpl; [|by apply IH].
  assert (filter (λ w, Commit.ID (commitWork.commit w) = id) works = []) as ->; [|simpl; lia].
  destruct (filter _ works) as [|w ws] eqn:Hfil; [done|]. exfalso.
  assert (w ∈ filter (λ w, Commit.ID (commitWork.commit w) = id) works) as Hw
    by (rewrite Hfil; left).
  apply list_elem_of_filter in Hw as [Hwid Hwin].
  apply Hnotin. rewrite Hid, <-Hwid. apply list_elem_of_fmap. by exists w.
Qed.

Lemma listed_times_pos (id : string) (works : list commitWork.t) (work : commitWork.t) :
  work ∈ works → Commit.ID (commitWork.commit work) = id →
  (1 ≤ listed_times id works)%nat.
Proof.
  intros Hin Hid. unfold listed_times.
  assert (work ∈ filter (λ w, Commit.ID (commitWork.commit w) = id) works) as Hf
    by (by apply list_elem_of_filter).
  destruct (filter _ works); [by apply elem_of_nil in Hf|simpl; lia].
Qed.

Lemma counted_app (projectID : string) (pre post : list commitWork.t)
    (st : Reducer.state) :
  Reducer.counted projectID st (pre ++ post)
  = Reducer.counted projectID st pre
    ++ Reducer.counted projectID (Reducer.run projectID st pre) post.
Proof.
  revert st. induction pre as [|work pre IH]; intros st; simpl; [done|].
  unfold Reducer.run in *. simpl.
  destruct (Reducer.counts st work); rewrite IH; done.
Qed.

(** An ID marked as processed after a run was marked before it or was
    counted in it. *)
Lemma processed_was_counted (projectID id : string) (works : list commitWork.t)
    (st : Reducer.state) :
  flag (Reducer.processedCommits (Reducer.run projectID st works)) id = true →
  flag (Reducer.processedCommits st) id = true ∨
  ∃ work, work ∈ Reducer.counted projectID st works ∧
          Commit.ID (commitWork.commit work) = id.
Proof.
  unfold Reducer.run.
  revert st. induction works as [|work works IH]; intros st; simpl; [by left|].
  intros Hflag. destruct (IH _ Hflag) as [Hst|(w & Hw & Hid)].
  - destruct (Reducer.counts st work) eqn:Hc.
    + rewrite step_counts in Hst by done. simpl in Hst.
      destruct (decide (Commit.ID (commitWork.commit work) = id)) as [Heq|Hne].
      * right. exists work. split; [left|done].
      * left. unfold flag in *. by rewrite lookup_insert_ne in Hst.
    + left. by rewrite (proj2 (step_drops projectID st work Hc)) in Hst.
  - right. exists w. split; [|done].
    destruct (Reducer.counts st work); [by right|done].
Qed.

(** C4, as the code has it. In a run of the result loop every commit ID
    reaches the statistics update at most once, so its statistics go to at
    most one author, and the totals of the run are the update applied to the
    counted results. An ID is counted exactly once when one of its
    occurrences is successful, has a new signature and is not a merge with a
    processed parent at the time it is handled; an ID listed twice whose
    occurrences are all dropped by those rules is counted zero times. *)
Theorem commit_id_counted_at_most_once (projectID id : string)
    (works : list commitWork.t) :
  (counted_times projectID id works ≤ 1)%nat ∧
  Reducer.stats (Reducer.run projectID Reducer.init works)
  = accumulate projectID ∅ (Reducer.counted projectID Reducer.init works) ∧
  ∀ pre work post,
    works = pre ++ work :: post →
    Commit.ID (commitWork.commit work) = id →
    commitWork.err work = None →
    flag (Reducer.commitSignatures (Reducer.run projectID Reducer.init pre))
         (Reducer.identifier_of work) = false →
    ¬ ((1 < length (Commit.ParentIDs (commitWork.commit work)))%nat ∧
       ∃ p, p ∈ Commit.ParentIDs (commitWork.commit work) ∧
            flag (Reducer.processedCommits (Reducer.run projectID Reducer.init pre)) p
            = true) →
    counted_times projectID id works = 1%nat.
Proof.
  assert (counted_times projectID id works ≤ 1)%nat as Hle.
  { apply listed_times_NoDup, counted_ids_fresh. }
  split; [done|]. split; [apply run_stats_counted|].
  intros pre work post -> Hid Herr Hsig Hmerge.
  apply Nat.le_antisymm; [done|]. unfold counted_times.
  rewrite counted_app.
  set (st := Reducer.run projectID Reducer.init pre) in *.
  destruct (flag (Reducer.processedCommits st) id) eqn:Hflag.
  - apply processed_was_counted in Hflag as [Hinit|(w & Hw & Hwid)]; [done|].
    apply (listed_times_pos id _ w); [|done]. apply elem_of_app. by left.
  - apply (listed_times_pos id _ work); [|done]. apply elem_of_app. right.
    simpl. assert (Reducer.counts st work = true) as ->; [|left].
    apply counts_true_iff. rewrite Hid. done.
Qed.

Lemma commit_id_counted_at_most_once_witness :
  listed_times "c0c0c0c0c0" Examples.twice_paged = 2%nat ∧
  counted_times "42" "c0c0c0c0c0" Examples.twice_paged = 1%nat.
Proof.
  split; [reflexivity|].
  apply (proj2 (proj2 (commit_id_counted_at_most_once
                         "42" "c0c0c0c0c0" Examples.twice_paged))
           [] (Examples.ok Examples.commit0 Examples.diff_a)
           [Examples.ok Examples.commit1 Examples.diff_b;
            Examples.ok Examples.commit0 Examples.diff_a]).
  - reflexivity.
  - reflexivity.
  - reflexivity.
  - reflexivity.
  - simpl. intros [Hlen _]. lia.
Defined.

(** C4 as stated fails: an ID listed twice may be counted zero times. Here
    [commit4] is listed twice after [commit0], whose message, author and
    diff it repeats, and both occurrences are dropped by the signature
    rule. *)
Lemma commit_id_exactly_once_counterexample :
  listed_times "c4c4c4c4c4" Examples.twice_listed = 2%nat ∧
  counted_times "42" "c4c4c4c4c4" Examples.twice_listed = 0%nat ∧
  ¬ (∀ (projectID id : string) (works : list commitWork.t),
       listed_times id works = 2%nat → counted_times projectID id works = 1%nat).
Proof.
  split; [reflexivity|]. split; [reflexivity|].
  intros Hclaim.
  specialize (Hclaim "42"%string "c4c4c4c4c4"%string Examples.twice_listed eq_refl).
  vm_compute in Hclaim. discriminate.
Qed.

(** ** The seen-signature set *)

(** C5, as the code has it. The signature of a successful result is marked
    as seen as soon as it is found to be new, before the merge-parent and
    duplicate-ID rules are applied and whether or not the result is then
    counted; a later successful result with that signature is dropped. *)
Theorem signature_marked_when_new (projectID : string) (st : Reducer.state)
    (work : commitWork.t) :
  commitWork.err work = None →
  flag (Reducer.commitSignatures st) (Reducer.identifier_of work) = false →
  Reducer.commitSignatures (Reducer.step projectID st work)
  = <[Reducer.identifier_of work := true]> (Reducer.commitSignatures st) ∧
  ∀ later,
    commitWork.err later = None →
    Reducer.identifier_of later = Reducer.identifier_of work →
    Reducer.counts (Reducer.step projectID st work) later = false ∧
    Reducer.step projectID (Reducer.step projectID st work) later
    = Reducer.step projectID st work.
Proof.
  intros Herr Hnew.
  assert (Reducer.commitSignatures (Reducer.step projectID st work)
          = <[Reducer.identifier_of work := true]> (Reducer.commitSignatures st)) as Hsig.
  { unfold Reducer.step. rewrite Herr, Hnew.
    destruct ((1 <? _)%nat && Reducer.hasProcessedParent _ _); [done|].
    destruct (flag (Reducer.processedCommits st) _); done. }
  split; [done|]. intros later Hlerr Hid.
  apply step_seen_signature; [done|].
  rewrite Hsig, Hid. apply flag_insert_eq.
Qed.

Lemma signature_marked_when_new_witness :
  Reducer.counts Examples.after_commit0
    (Examples.ok Examples.commit2 Examples.diff_b) = false ∧
  Reducer.commitSignatures
    (Reducer.step "42" Examples.after_commit0
       (Examples.ok Examples.commit2 Examples.diff_b))
  = <[Reducer.identifier_of (Examples.ok Examples.commit2 Examples.diff_b) := true]>
      (Reducer.commitSignatures Examples.after_commit0).
Proof.
  split; [reflexivity|].
  apply (signature_marked_when_new "42" Examples.after_commit0
           (Examples.ok Examples.commit2 Examples.diff_b)); reflexivity.
Defined.

(** C5 as stated fails. After [commit0] is counted, the merge [commit2] is
    dropped by the merge-parent rule, yet its signature is marked; [commit3],
    a distinct commit with that signature, would have been counted before
    and is dropped after. *)
Lemma signature_only_when_counted_counterexample :
  commitWork.err Examples.merge_work = None ∧
  flag (Reducer.commitSignatures Examples.after_commit0)
       (Reducer.identifier_of Examples.merge_work) = false ∧
  Reducer.hasProcessedParent (Reducer.processedCommits Examples.after_commit0)
    (Commit.ParentIDs (commitWork.commit Examples.merge_work)) = true ∧
  Reducer.commitSignatures (Reducer.step "42" Examples.after_commit0 Examples.merge_work)
  ≠ Reducer.commitSignatures Examples.after_commit0 ∧
  Commit.ID (commitWork.commit Examples.repeat_work)
  ≠ Commit.ID (commitWork.commit Examples.merge_work) ∧
  Reducer.counts Examples.after_commit0 Examples.repeat_work = true ∧
  Reducer.counts (Reducer.step "42" Examples.after_commit0 Examples.merge_work)
    Examples.repeat_work = false.
Proof.
  repeat split; try reflexivity; discriminate.
Qed.

(** ** The shape of a project result *)

Lemma account_single_project (projectID : string) (stats : gmap string UserStats.t)
    (author : string) (diff : CommitStats.t) :
  (∀ a u, stats !! a = Some u → single_project projectID u) →
  ∀ a u, Reducer.account projectID stats author diff !! a = Some u →
         single_project projectID u.
Proof.
  intros Hinv a u. rewrite account_eq. cbv zeta.
  destruct (decide (author = a)) as [<-|Hne].
  2: { rewrite lookup_insert_ne by done. apply Hinv. }
  rewrite lookup_insert_eq. intros [= <-].
  assert (∃ old, user_at stats author = old ∧
                 (old = UserStats.zero ∨ single_project projectID old))
    as (old & -> & Hold).
  { unfold user_at. destruct (stats !! author) as [o|] eqn:Ho; simpl.
    - exists o. split; [done|]. right. by apply (Hinv author).
    - exists UserStats.zero. split; [done|]. by left. }
  unfold single_project, project_at. simpl. rewrite lookup_insert_eq. simpl.
  destruct Hold as [->|(Hdom & Ha & Hd & Hc & Ht)]; simpl.
  - rewrite lookup_empty. simpl. split.
    { rewrite dom_insert_L, dom_empty_L. apply (right_id_L ∅ (∪)). }
    repeat split.
    unfold int_add. rewrite ?wrap_add_l, ?wrap_add_r. f_equal; lia.
  - unfold project_at in Ha, Hd, Hc. rewrite <-Ha, <-Hd, <-Hc. split.
    { rewrite dom_insert_L, Hdom. apply (idemp_L (∪)). }
    repeat split. rewrite Ht. apply int_add_pairs.
Qed.

Lemma run_single_project (projectID : string) (works : list commitWork.t)
    (st : Reducer.state) :
  (∀ a u, Reducer.stats st !! a = Some u → single_project projectID u) →
  ∀ a u, Reducer.stats (Reducer.run projectID st works) !! a = Some u →
         single_project projectID u.
Proof.
  unfold Reducer.run.
  revert st. induction works as [|work works IH]; intros st Hinv; simpl; [done|].
  apply IH. destruct (Reducer.counts st work) eqn:Hc.
  - rewrite step_counts by done. simpl. by apply account_single_project.
  - by rewrite (proj1 (step_drops projectID st work Hc)).
Qed.

Section pipeline_facts.

Variable decode_commits : string → option (list Commit.t).
Variable decode_commit : string → option Commit.t.
Variable fetch : transport.
Variable arrival : list commitWork.t → list commitWork.t.
Variables projectID startDate endDate : string.

Local Abbreviation list_attempts :=
  (Pipeline.list_attempts fetch projectID startDate endDate).
Local Abbreviation lister :=
  (Pipeline.lister decode_commits fetch projectID startDate endDate).
Local Abbreviation detail_attempts := (Pipeline.detail_attempts fetch projectID).
Local Abbreviation process_commit := (Pipeline.process_commit decode_commit fetch projectID).
Local Abbreviation workers := (Pipeline.workers decode_commit fetch projectID).
Local Abbreviation GetProjectCommitStats :=
  (Pipeline.GetProjectCommitStats decode_commits decode_commit fetch arrival
     projectID startDate endDate).

(** C9. In the map a successful [GetProjectCommitStats] returns, every
    author's [Projects] has the given project ID as its only key, the
    author's additions, deletions and changes are those of that entry, and
    the author's total is additions + deletions: in Go's int addition, hence
    as integers whenever that sum is a value of [int]. *)
Theorem project_result_shape (fuel : nat) (stats : gmap string UserStats.t) :
  GetProjectCommitStats fuel = Stats stats →
  ∀ author u,
    stats !! author = Some u →
    single_project projectID u ∧
    (in_int (UserStats.Additions u + UserStats.Deletions u) →
     UserStats.Total u = UserStats.Additions u + UserStats.Deletions u).
Proof.
  unfold Pipeline.GetProjectCommitStats.
  destruct (lister fuel 1) as [[commits fatal]|]; [|done].
  destruct (workers 0 commits) as [works|]; [|done].
  destruct fatal; [done|]. intros [= <-] author u Hu.
  assert (single_project projectID u) as Hshape.
  { apply (run_single_project projectID (arrival works) Reducer.init) with author;
      [|done].
    intros a' u'. simpl. by rewrite lookup_empty. }
  split; [done|]. intros Hsum.
  destruct Hshape as (_ & _ & _ & _ & ->). by apply int_add_exact.
Qed.

(** *** The workers *)

Lemma slice_to_long (s : string) (n : nat) :
  (n ≤ String.length s)%nat → slice_to s n = Ok (substring 0 n s).
Proof.
  intros Hn. unfold slice_to.
  destruct (n <=? String.length s)%nat eqn:Hle; [done|].
  apply Nat.leb_gt in Hle. lia.
Qed.

Lemma slice_to_short (s : string) (n : nat) :
  (String.length s < n)%nat → slice_to s n = Panic.
Proof.
  intros Hn. unfold slice_to.
  destruct (n <=? String.length s)%nat eqn:Hle; [|done].
  apply Nat.leb_le in Hle. lia.
Qed.

Lemma detail_attempts_long (commit : Commit.t) (seq left retry : nat) (last : response) :
  (8 ≤ String.length (Commit.ID commit))%nat →
  ∃ r, detail_attempts commit seq retry left last = Ok r.
Proof.
  intros Hlen. revert retry last.
  induction left as [|left IH]; intros retry last; simpl; [by eexists|].
  assert ((if (0 <? retry)%nat then slice_to (Commit.ID commit) 8 else Ok ""%string)
          = Ok (if (0 <? retry)%nat then substring 0 8 (Commit.ID commit) else ""%string))
    as ->.
  { destruct (0 <? retry)%nat; [by apply slice_to_long|done]. }
  unfold mbind, exec_bind.
  destruct (fetch _ retry); [by eexists|apply IH].
Qed.

Lemma process_commit_long (seq : nat) (commit : Commit.t) :
  (8 ≤ String.length (Commit.ID commit))%nat →
  ∃ work, process_commit seq commit = Ok work ∧ commitWork.commit work = commit.
Proof.
  intros Hlen. unfold Pipeline.process_commit.
  destruct (detail_attempts_long commit seq maxRetries 0%nat (Body "") Hlen) as [r ->].
  unfold mbind, exec_bind. rewrite slice_to_long by done.
  destruct r as [body|e]; [|by eexists].
  destruct (decode_commit body); by eexists.
Qed.

Lemma process_commit_short (seq : nat) (commit : Commit.t) :
  (String.length (Commit.ID commit) < 8)%nat →
  process_commit seq commit = Panic ↔
  (∃ e, fetch (CommitDetail projectID (Commit.ID commit) seq) 0%nat = Failed e) ∨
  (∃ body, fetch (CommitDetail projectID (Commit.ID commit) seq) 0%nat = Body body ∧
           decode_commit body = None).
Proof.
  intros Hlen. unfold Pipeline.process_commit, maxRetries. simpl.
  unfold mbind, exec_bind.
  destruct (fetch (CommitDetail projectID (Commit.ID commit) seq) 0%nat) as [body|e] eqn:H0.
  - destruct (decode_commit body) eqn:Hd.
    + split; [done|]. intros [[e He]|(b & [= <-] & Hb)]; [done|congruence].
    + rewrite slice_to_short by done. split; [|done]. intros _. right. by exists body.
  - simpl. rewrite slice_to_short by done. split; [|done]. intros _. left. by exists e.
Qed.

Lemma workers_long (commits : list Commit.t) (seq : nat) :
  (∀ c, c ∈ commits → (8 ≤ String.length (Commit.ID c))%nat) →
  ∃ works, workers seq commits = Ok works.
Proof.
  revert seq. induction commits as [|c commits IH]; intros seq Hall; simpl.
  { by eexists. }
  destruct (process_commit_long seq c) as (work & -> & _).
  { apply Hall. left. }
  destruct (IH (S seq)) as [works ->].
  { intros c' Hc'. apply Hall. by right. }
  by eexists.
Qed.

Lemma workers_panic (commits : list Commit.t) (seq k : nat) (commit : Commit.t) :
  commits !! k = Some commit →
  process_commit (seq + k) commit = Panic →
  workers seq commits = Panic.
Proof.
  revert seq k. induction commits as [|c commits IH]; intros seq k Hk Hp; [done|].
  simpl. destruct k as [|k]; simpl in Hk.
  - injection Hk as ->. rewrite Nat.add_0_r in Hp. by rewrite Hp.
  - rewrite (IH (S seq) k Hk); [|simpl; by rewrite Nat.add_succ_r in Hp].
    unfold mbind, exec_bind. by destruct (process_commit seq c).
Qed.

(** C10. The worker formats [commit.ID[:8]] on every retry, on a failed
    detail fetch and on a failed decode. With an ID of at least eight
    characters the worker always delivers a result for its commit. With a
    shorter ID it panics exactly when the first attempt fails (which leads to
    a retry or to the failure message) or the body it obtains does not
    decode; and a panic of any worker ends the run, instead of the commit
    being dropped. *)
Theorem short_commit_id_panics :
  (∀ seq commit,
     (8 ≤ String.length (Commit.ID commit))%nat →
     ∃ work, process_commit seq commit = Ok work ∧ commitWork.commit work = commit) ∧
  (∀ seq commit,
     (String.length (Commit.ID commit) < 8)%nat →
     process_commit seq commit = Panic ↔
     (∃ e, fetch (CommitDetail projectID (Commit.ID commit) seq) 0%nat = Failed e) ∨
     (∃ body, fetch (CommitDetail projectID (Commit.ID commit) seq) 0%nat = Body body ∧
              decode_commit body = None)) ∧
  (∀ fuel commits fatal k commit,
     lister fuel 1 = Some (commits, fatal) →
     commits !! k = Some commit →
     (String.length (Commit.ID commit) < 8)%nat →
     (∃ e, fetch (CommitDetail projectID (Commit.ID commit) k) 0%nat = Failed e) →
     GetProjectCommitStats fuel = Panicked).
Proof.
  split; [apply process_commit_long|]. split; [apply process_commit_short|].
  intros fuel commits fatal k commit Hlist Hk Hlen Hfail.
  unfold Pipeline.GetProjectCommitStats. rewrite Hlist.
  rewrite (workers_panic commits 0%nat k commit Hk); [done|].
  apply process_commit_short; [done|]. by left.
Qed.

(** *** The listing goroutine *)





End pipeline_facts.

Lemma project_result_shape_witness :
  single_project "42"
    (UserStats.mk 13 6 21 19 {[ "42"%string := ProjectStats.mk 13 6 21 ]}) ∧
  (in_int (13 + 6) → 19 = 13 + 6).
Proof.
  apply (project_result_shape Examples.decode_commits Examples.decode_commit
           Examples.healthy Examples.in_order "42" "2024-01-01" "2024-01-31" 4%nat
           (Reducer.stats
              (Reducer.run "42" Reducer.init
                 [Examples.ok Examples.commit0 Examples.diff_a;
                  Examples.ok Examples.commit1 Examples.diff_b;
                  Examples.ok Examples.commit2 Examples.diff_b]))
           eq_refl "alice"%string
           (UserStats.mk 13 6 21 19 {[ "42"%string := ProjectStats.mk 13 6 21 ]})).
  vm_compute. reflexivity.
Defined.

Lemma short_commit_id_panics_witness :
  Pipeline.GetProjectCommitStats Examples.decode_commits Examples.decode_commit
    Examples.short_listing Examples.in_order "42" "2024-01-01" "2024-01-31" 3%nat
  = Panicked.
Proof.
  apply (proj2 (proj2 (short_commit_id_panics
                         Examples.decode_commits Examples.decode_commit
                         Examples.short_listing Examples.in_order
                         "42" "2024-01-01" "2024-01-31"))
           3%nat [Examples.short_commit] None 0%nat Examples.short_commit).
  - reflexivity.
  - reflexivity.
  - simpl. lia.
  - eexists. reflexivity.
Defined.



(** ** The cross-project merge *)

(** A left fold whose steps commute does not depend on the order. *)
Lemma foldl_commute_permutation {A B} (f : A → B → A) (l1 l2 : list B) :
  (∀ a x y, f (f a x) y = f (f a y) x) →
  l1 ≡ₚ l2 → ∀ a, foldl f a l1 = foldl f a l2.
Proof.
  intros Hcomm Hperm. induction Hperm as [|x l1 l2 _ IH|x y l|l1 l2 l3 _ IH1 _ IH2];
    intros a; simpl.
  - done.
  - apply IH.
  - by rewrite Hcomm.
  - by rewrite IH1.
Qed.

(** A fold over entries with distinct keys, each step of which rewrites the
    entry of its own key only, read key by key. *)
Section keyed_fold.
Context {A V : Type}.
Variable step : gmap string A → string * V → gmap string A.
Variable g : string → option A → V → option A.
Hypothesis step_eq : ∀ acc k v, step acc (k, v) !! k = g k (acc !! k) v.
Hypothesis step_ne : ∀ acc k v k', k' ≠ k → step acc (k, v) !! k' = acc !! k'.

Lemma keyed_fold_lookup (l : list (string * V)) (acc : gmap string A) (k : string) :
  NoDup l.*1 →
  foldl step acc l !! k
  = match (list_to_map l : gmap string V) !! k with
    | Some v => g k (acc !! k) v
    | None => acc !! k
    end.
Proof.
  revert acc. induction l as [|[k0 v0] l IH]; intros acc Hnd; simpl.
  { by rewrite lookup_empty. }
  apply NoDup_cons in Hnd as [Hk0 Hnd]. rewrite IH by done.
  destruct (decide (k = k0)) as [->|Hne].
  - rewrite lookup_insert_eq.
    rewrite (not_elem_of_list_to_map_1 l k0) by done. apply step_eq.
  - rewrite lookup_insert_ne by done. by rewrite step_ne.
Qed.

Lemma keyed_fold_map (range : ∀ A : Type, gmap string A → list (string * A))
    (m : gmap string V) (acc : gmap string A) (k : string) :
  enumerates range →
  foldl step acc (range V m) !! k
  = match m !! k with
    | Some v => g k (acc !! k) v
    | None => acc !! k
    end.
Proof.
  intros Hrange. rewrite keyed_fold_lookup.
  - rewrite (list_to_map_proper (range V m) (map_to_list m)).
    + by rewrite list_to_map_to_list.
    + rewrite (Hrange V m). apply NoDup_fst_map_to_list.
    + apply Hrange.
  - rewrite (Hrange V m). apply NoDup_fst_map_to_list.
Qed.

End keyed_fold.

Lemma merge_project_eq (projects : gmap string ProjectStats.t) (k : string)
    (q : ProjectStats.t) :
  Merge.merge_project projects (k, q)
  = <[k := add_project (project_at projects k) q]> projects.
Proof.
  unfold Merge.merge_project, project_at.
  destruct (projects !! k) as [p|] eqn:Hp; simpl.
  - by rewrite Hp.
  - by rewrite lookup_insert_eq, insert_insert_eq.
Qed.

Lemma add_projects_lookup (P Q : gmap string ProjectStats.t) (k : string) :
  add_projects P Q !! k
  = match Q !! k with
    | Some q => Some (add_project (project_at P k) q)
    | None => P !! k
    end.
Proof.
  unfold add_projects, project_at. rewrite lookup_merge. unfold diag_None.
  by destruct (P !! k), (Q !! k).
Qed.

Lemma add_project_swap (p q r : ProjectStats.t) :
  add_project (add_project p q) r = add_project (add_project p r) q.
Proof. unfold add_project. simpl. f_equal; apply int_add_swap. Qed.

Lemma add_projects_swap (P Q R : gmap string ProjectStats.t) :
  add_projects (add_projects P Q) R = add_projects (add_projects P R) Q.
Proof.
  apply map_eq. intros k. unfold project_at. rewrite !add_projects_lookup.
  unfold project_at. rewrite !add_projects_lookup.
  destruct (Q !! k), (R !! k); simpl; try done.
  f_equal. apply add_project_swap.
Qed.

Lemma add_user_swap (u d e : UserStats.t) :
  add_user (add_user u d) e = add_user (add_user u e) d.
Proof.
  unfold add_user. simpl. f_equal; try apply int_add_swap. apply add_projects_swap.
Qed.

Section merge_facts.

Variable range : ∀ A : Type, gmap string A → list (string * A).
Hypothesis range_ok : enumerates range.
Variable targets : gmap string bool.

Lemma merge_projects_fold (P Q : gmap string ProjectStats.t) :
  foldl Merge.merge_project P (range _ Q) = add_projects P Q.
Proof.
  apply map_eq. intros k. rewrite add_projects_lookup.
  apply (keyed_fold_map Merge.merge_project
           (λ k o q, Some (add_project (default ProjectStats.zero o) q))); [| |done].
  - intros acc k' v. rewrite merge_project_eq. by rewrite lookup_insert_eq.
  - intros acc k' v k'' Hne. rewrite merge_project_eq. by rewrite lookup_insert_ne.
Qed.

(** The loop body for one author in closed form. *)
Lemma merge_author_eq (merged : gmap string UserStats.t) (a : string) (d : UserStats.t) :
  Merge.merge_author range targets merged (a, d)
  = if allowed targets a then <[a := add_user (user_at merged a) d]> merged
    else merged.
Proof.
  unfold Merge.merge_author, allowed.
  destruct ((0 <? size targets)%nat && negb (flag targets a)); simpl; [done|].
  rewrite merge_projects_fold. unfold user_at, add_user.
  destruct (merged !! a) as [u|] eqn:Hu; simpl.
  - rewrite Hu, !lookup_insert_eq. simpl. by rewrite insert_insert_eq.
  - rewrite !lookup_insert_eq. simpl. by rewrite !insert_insert_eq.
Qed.

Lemma merge_stats_lookup (merged stats : gmap string UserStats.t) (a : string) :
  Merge.merge_stats range targets merged stats !! a
  = match stats !! a with
    | Some d => if allowed targets a then Some (add_user (user_at merged a) d)
                else merged !! a
    | None => merged !! a
    end.
Proof.
  unfold Merge.merge_stats.
  apply (keyed_fold_map (Merge.merge_author range targets)
           (λ k o d, if allowed targets k
                     then Some (add_user (default UserStats.zero o) d) else o));
    [| |done].
  - intros acc k v. rewrite merge_author_eq.
    destruct (allowed targets k); [by rewrite lookup_insert_eq|done].
  - intros acc k v k' Hne. rewrite merge_author_eq.
    destruct (allowed targets k); [by rewrite lookup_insert_ne|done].
Qed.

Lemma merge_stats_swap (merged A B : gmap string UserStats.t) :
  Merge.merge_stats range targets (Merge.merge_stats range targets merged A) B
  = Merge.merge_stats range targets (Merge.merge_stats range targets merged B) A.
Proof.
  apply map_eq. intros a. rewrite !merge_stats_lookup.
  unfold user_at. rewrite !merge_stats_lookup.
  destruct (A !! a), (B !! a), (allowed targets a); simpl; try done.
  f_equal. apply add_user_swap.
Qed.

End merge_facts.

(** The result of the body over one map does not depend on the enumeration. *)
Lemma merge_stats_range (range1 range2 : ∀ A : Type, gmap string A → list (string * A))
    (targets : gmap string bool) (merged stats : gmap string UserStats.t) :
  enumerates range1 → enumerates range2 →
  Merge.merge_stats range1 targets merged stats
  = Merge.merge_stats range2 targets merged stats.
Proof.
  intros H1 H2. apply map_eq. intros a. by rewrite !merge_stats_lookup.
Qed.

Lemma merge_fold_range (range1 range2 : ∀ A : Type, gmap string A → list (string * A))
    (targets : gmap string bool) (l : list (gmap string UserStats.t))
    (merged : gmap string UserStats.t) :
  enumerates range1 → enumerates range2 →
  foldl (Merge.merge_stats range1 targets) merged l
  = foldl (Merge.merge_stats range2 targets) merged l.
Proof.
  intros H1 H2. revert merged. induction l as [|stats l IH]; intros merged; simpl.
  - done.
  - by rewrite IH, (merge_stats_range range1 range2).
Qed.

(** *** Merging a merged result again *)

Lemma int_add_0_l (z : Z) : in_int z → 0 +! z = z.
Proof. intros Hz. unfold int_add. by rewrite Z.add_0_l, wrap_exact. Qed.

Lemma add_project_zero (q : ProjectStats.t) :
  project_in_int q → add_project ProjectStats.zero q = q.
Proof.
  intros (Ha & Hd & Hc). destruct q as [a d c]. unfold add_project. simpl in *.
  by rewrite !int_add_0_l.
Qed.

Lemma add_user_zero (d : UserStats.t) :
  user_in_int d → add_user UserStats.zero d = d.
Proof.
  intros (Ha & Hd & Hc & Ht & Hp). destruct d as [a dl c t P].
  unfold add_user. simpl in *. rewrite !int_add_0_l by done. f_equal.
  apply map_eq. intros k. rewrite add_projects_lookup. unfold project_at.
  rewrite lookup_empty. simpl.
  destruct (P !! k) as [q|] eqn:Hq; [|done].
  f_equal. apply add_project_zero. by apply (Hp k).
Qed.

Lemma add_user_in_int (u d : UserStats.t) :
  (∀ k p, UserStats.Projects u !! k = Some p → project_in_int p) →
  user_in_int (add_user u d).
Proof.
  intros Hu. unfold user_in_int, add_user. simpl.
  repeat (split; [apply int_add_in_int|]).
  intros k p. rewrite add_projects_lookup.
  destruct (UserStats.Projects d !! k) as [q|].
  - intros [= <-]. unfold project_in_int, add_project. simpl.
    repeat split; apply int_add_in_int.
  - apply Hu.
Qed.

Section merged_results.

Variable range : ∀ A : Type, gmap string A → list (string * A).
Hypothesis range_ok : enumerates range.
Variable targets : gmap string bool.

Local Abbreviation merged_ok := (merged_ok targets).

Lemma merge_stats_ok (merged stats : gmap string UserStats.t) :
  merged_ok merged → merged_ok (Merge.merge_stats range targets merged stats).
Proof.
  intros Hok a u. rewrite merge_stats_lookup by done.
  destruct (stats !! a) as [d|]; [|apply Hok].
  destruct (allowed targets a) eqn:Hal.
  2: { intros Hu. destruct (Hok a u Hu) as [Hal' _]. congruence. }
  intros [= <-]. split; [done|]. apply add_user_in_int.
  unfold user_at. destruct (merged !! a) as [u|] eqn:Hu; simpl.
  - destruct (Hok a u Hu) as (_ & _ & _ & _ & _ & Hp). apply Hp.
  - intros k p. by rewrite lookup_empty.
Qed.

Lemma merge_fold_ok (l : list (gmap string UserStats.t))
    (merged : gmap string UserStats.t) :
  merged_ok merged → merged_ok (foldl (Merge.merge_stats range targets) merged l).
Proof.
  revert merged. induction l as [|stats l IH]; intros merged Hok; simpl; [done|].
  by apply IH, merge_stats_ok.
Qed.

Lemma merge_stats_empty (merged : gmap string UserStats.t) :
  merged_ok merged → Merge.merge_stats range targets ∅ merged = merged.
Proof.
  intros Hok. apply map_eq. intros a. rewrite merge_stats_lookup by done.
  destruct (merged !! a) as [u|] eqn:Hu; [|apply lookup_empty].
  destruct (Hok a u Hu) as [-> Hint]. unfold user_at. rewrite lookup_empty. simpl.
  by rewrite add_user_zero.
Qed.

Lemma merge_regroup (l1 l2 : list (gmap string UserStats.t)) :
  foldl (Merge.merge_stats range targets) ∅
        (foldl (Merge.merge_stats range targets) ∅ l1 :: l2)
  = foldl (Merge.merge_stats range targets) ∅ (l1 ++ l2).
Proof.
  simpl. rewrite foldl_app, merge_stats_empty; [done|].
  apply merge_fold_ok. intros a u. by rewrite lookup_empty.
Qed.

End merged_results.

(** C7. The merge of a list of per-project maps does not depend on the
    order of the list, nor on the order in which each map and each
    [Projects] map is enumerated: with the same allow-list, merging a
    permutation of the list gives the same map, top-level totals and
    per-project entries alike. Merging is also associative: a merged result
    put back in front of further maps merges to the result of the whole
    list. *)
Theorem merge_permutation_invariant
    (range1 range2 : ∀ A : Type, gmap string A → list (string * A))
    (targetUsers : list string) :
  enumerates range1 → enumerates range2 →
  (∀ l1 l2 : list (gmap string UserStats.t),
     l1 ≡ₚ l2 →
     Merge.MergeProjectStats range1 l1 targetUsers
     = Merge.MergeProjectStats range2 l2 targetUsers) ∧
  (∀ l1 l2 : list (gmap string UserStats.t),
     Merge.MergeProjectStats range1
       (Merge.MergeProjectStats range2 l1 targetUsers :: l2) targetUsers
     = Merge.MergeProjectStats range1 (l1 ++ l2) targetUsers).
Proof.
  intros H1 H2. unfold Merge.MergeProjectStats. split.
  - intros l1 l2 Hperm.
    rewrite (merge_fold_range range1 range2) by done.
    apply foldl_commute_permutation; [|done].
    intros a x y. by apply merge_stats_swap.
  - intros l1 l2.
    rewrite (merge_fold_range range2 range1 _ l1) by done.
    by apply merge_regroup.
Qed.

Lemma merge_permutation_invariant_witness :
  Merge.MergeProjectStats Examples.in_map_order
    [Examples.stats_A; Examples.stats_B; Examples.stats_C] []
  = Merge.MergeProjectStats Examples.in_map_order
      [Examples.stats_C; Examples.stats_A; Examples.stats_B] [].
Proof.
  apply (merge_permutation_invariant Examples.in_map_order Examples.in_map_order []).
  - intros A m. reflexivity.
  - intros A m. reflexivity.
  - apply (Permutation_app_comm [Examples.stats_A; Examples.stats_B] [Examples.stats_C]).
Defined.

(** ** The [analyze] command *)

Section analyze_facts.

Variable parse_date : string → bool.
Variable Split : string → string → list string.
Variable TrimSpace : string → string.
Variable GetProjectsFromExcel : string → list ProjectInfo.t + error.
Variable decode_commits : string → option (list Commit.t).
Variable decode_commit : string → option Commit.t.
Variable range : ∀ A : Type, gmap string A → list (string * A).
Variable remotes : nat → remote.
Variable fs : filesystem.
Variable fuel : nat.
Variables projects startDate endDate projectFile TARGET_USERS : string.

Local Abbreviation run_projects :=
  (Analyze.run_projects TrimSpace decode_commits decode_commit remotes fuel
     startDate endDate).
Local Abbreviation succeeded :=
  (succeeded TrimSpace decode_commits decode_commit remotes fuel startDate endDate).
Local Abbreviation failed :=
  (failed TrimSpace decode_commits decode_commit remotes fuel startDate endDate).
Local Abbreviation all_return :=
  (all_return TrimSpace decode_commits decode_commit remotes fuel startDate endDate).

(** The loop over the projects collects the maps of the runs that
    succeeded and a warning for each run that failed. *)
Lemma run_projects_done (projectIDs : list string) (i : nat)
    (projectsStats : list (gmap string UserStats.t))
    (warnings : list (string * error)) :
  all_return i projectIDs →
  run_projects i projectIDs projectsStats warnings
  = RunsDone (projectsStats ++ succeeded i projectIDs)
             (warnings ++ failed i projectIDs).
Proof.
  revert i projectsStats warnings.
  induction projectIDs as [|rawID rest IH]; intros i projectsStats warnings Hall.
  { simpl. by rewrite !app_nil_r. }
  assert (all_return (S i) rest) as Hrest.
  { intros k id Hk. replace (S i + k)%nat with (i + S k)%nat by lia.
    by apply Hall. }
  pose proof (Hall 0%nat rawID eq_refl) as Hhead. rewrite Nat.add_0_r in Hhead.
  unfold project_outcome in Hhead. simpl. unfold project_outcome.
  destruct Hhead as [[stats Hs]|[err He]].
  - rewrite Hs, IH by done. by rewrite <-!app_assoc.
  - rewrite He, IH by done. by rewrite <-!app_assoc.
Qed.

(** C8, as the code has it. When the dates parse, the project file is read
    and every project run returns, the command prints a warning for each
    run that failed, merges the maps of the runs that succeeded and exports
    that merge; it succeeds whenever the export does, also when no project
    run succeeded, in which case it exports the merge of no map. *)
Theorem analyze_tolerates_failed_runs (projectsInfo : list ProjectInfo.t) :
  parse_date startDate = true →
  parse_date endDate = true →
  GetProjectsFromExcel projectFile = inl projectsInfo →
  all_return 0 (Split projects ",") →
  let mergedStats :=
    Merge.MergeProjectStats range (succeeded 0 (Split projects ","))
      (Analyze.targetUsers Split TrimSpace TARGET_USERS) in
  (Excel.ExportStatsToCSV range fs projectsInfo mergedStats startDate endDate).2 = None →
  Analyze.analyzeCmd parse_date Split TrimSpace GetProjectsFromExcel
    decode_commits decode_commit range remotes fs fuel
    projects startDate endDate projectFile TARGET_USERS
  = Finished (failed 0 (Split projects ",")) mergedStats
      (Excel.ExportStatsToCSV range fs projectsInfo mergedStats startDate endDate).1.
Proof.
  intros Hstart Hend Hfile Hall mergedStats Hexport.
  unfold Analyze.analyzeCmd. rewrite Hstart, Hend, Hfile. simpl.
  rewrite run_projects_done by done. simpl. fold mergedStats.
  destruct (Excel.ExportStatsToCSV range fs projectsInfo mergedStats startDate endDate)
    as [files err]. simpl in Hexport. by rewrite Hexport.
Qed.

End analyze_facts.

Lemma analyze_tolerates_failed_runs_witness :
  Analyze.analyzeCmd Examples.parse_date Examples.Split Examples.TrimSpace
    Examples.read_projects Examples.decode_commits Examples.decode_commit
    Examples.in_map_order Examples.remotes_mixed Examples.disk 4
    "42, 43" "2024-01-01" "2024-01-31" "projects.xlsx" ""
  = Finished
      [("43"%string, ListFetchError 1 (RequestError "connection refused"))]
      {[ "alice"%string :=
           UserStats.mk 13 6 21 19 {[ "42"%string := ProjectStats.mk 13 6 21 ]} ]}
      [("alice"%string, [Row.mk "alice" "parser" "tools/parser" 13 6 21 19])].
Proof.
  rewrite (analyze_tolerates_failed_runs
             Examples.parse_date Examples.Split Examples.TrimSpace
             Examples.read_projects Examples.decode_commits Examples.decode_commit
             Examples.in_map_order Examples.remotes_mixed Examples.disk 4
             "42, 43" "2024-01-01" "2024-01-31" "projects.xlsx" ""
             [ProjectInfo.mk "42" "parser" "tools/parser"]).
  - vm_compute. reflexivity.
  - reflexivity.
  - reflexivity.
  - reflexivity.
  - intros [|[|k]] rawID Hk; try discriminate.
    + injection Hk as <-. left. eexists. vm_compute. reflexivity.
    + injection Hk as <-. right. eexists. vm_compute. reflexivity.
  - vm_compute. reflexivity.
Defined.

(** C8 as stated fails: with every project run failing the command still
    returns normally, after exporting the merge of no map. *)
Lemma analyze_zero_projects_counterexample :
  succeeded Examples.TrimSpace Examples.decode_commits Examples.decode_commit
    Examples.remotes_down 4 "2024-01-01" "2024-01-31" 0 (Examples.Split "42,43" ",")
  = [] ∧
  Analyze.analyzeCmd Examples.parse_date Examples.Split Examples.TrimSpace
    Examples.read_projects Examples.decode_commits Examples.decode_commit
    Examples.in_map_order Examples.remotes_down Examples.disk 4
    "42,43" "2024-01-01" "2024-01-31" "projects.xlsx" ""
  = Finished
      [("42"%string, ListFetchError 1 (RequestError "connection refused"));
       ("43"%string, ListFetchError 1 (RequestError "connection refused"))]
      ∅ [].
Proof. split; vm_compute; reflexivity. Qed.


(** * Further properties *)

(** ** The result loop as a whole *)

Lemma step_error (projectID : string) (st : Reducer.state) (work : commitWork.t) :
  commitWork.err work ≠ None → Reducer.step projectID st work = st.
Proof. unfold Reducer.step. by destruct (commitWork.err work). Qed.

(** X1. Results that carry an error do not take part in the loop: a run
    over a sequence of results ends in the state of the run over its
    successful results alone. *)
Theorem run_ignores_errors (projectID : string) (works : list commitWork.t)
    (st : Reducer.state) :
  Reducer.run projectID st works = Reducer.run projectID st (successful works).
Proof.
  unfold Reducer.run, successful.
  revert st. induction works as [|work works IH]; intros st; simpl; [done|].
  rewrite filter_cons. case_decide as Herr; simpl.
  - apply IH.
  - rewrite step_error by done. apply IH.
Qed.

Lemma step_signatures (projectID : string) (st : Reducer.state) (work : commitWork.t)
    (s : CommitIdentifier.t) :
  flag (Reducer.commitSignatures (Reducer.step projectID st work)) s = true ↔
  flag (Reducer.commitSignatures st) s = true ∨
  (commitWork.err work = None ∧ Reducer.identifier_of work = s).
Proof.
  unfold Reducer.step. destruct (commitWork.err work) as [e|] eqn:Herr.
  { split; [by left|]. by intros [?|[? _]]. }
  destruct (flag (Reducer.commitSignatures st) (Reducer.identifier_of work)) eqn:Hseen.
  { split; [by left|]. intros [?|[_ <-]]; done. }
  assert (flag (<[Reducer.identifier_of work := true]> (Reducer.commitSignatures st)) s
          = true ↔
          flag (Reducer.commitSignatures st) s = true ∨ Reducer.identifier_of work = s)
    as Hins.
  { unfold flag. destruct (decide (Reducer.identifier_of work = s)) as [->|Hne].
    - rewrite lookup_insert_eq. simpl. split; [by right|done].
    - rewrite lookup_insert_ne by done. split; [by left|]. by intros [?|?]. }
  assert (flag (Reducer.commitSignatures st) s = true ∨ Reducer.identifier_of work = s ↔
          flag (Reducer.commitSignatures st) s = true
          ∨ (None = None :> option error) ∧ Reducer.identifier_of work = s) as Hor.
  { split; (intros [?|?]; [by left|right]); [done|by destruct H]. }
  destruct ((1 <? _)%nat && Reducer.hasProcessedParent _ _); simpl.
  { by rewrite Hins. }
  destruct (flag (Reducer.processedCommits st) _); simpl; by rewrite Hins.
Qed.

(** X2. After a run from the initial state, the signatures marked as seen
    are those of the successful results of the run, counted or not. *)
Theorem seen_signatures_of_run (projectID : string) (works : list commitWork.t)
    (s : CommitIdentifier.t) :
  flag (Reducer.commitSignatures (Reducer.run projectID Reducer.init works)) s = true ↔
  ∃ work, work ∈ works ∧ commitWork.err work = None ∧ Reducer.identifier_of work = s.
Proof.
  assert (∀ st,
    flag (Reducer.commitSignatures (Reducer.run projectID st works)) s = true ↔
    flag (Reducer.commitSignatures st) s = true ∨
    ∃ work, work ∈ works ∧ commitWork.err work = None ∧ Reducer.identifier_of work = s)
    as Hgen.
  { unfold Reducer.run. induction works as [|work works IH]; intros st; simpl.
    - split; [by left|]. intros [?|(w & Hw & _)]; [done|]. by apply elem_of_nil in Hw.
    - rewrite IH, step_signatures. split.
      + intros [[?|[? ?]]|(w & Hw & ? & ?)].
        * by left.
        * right. exists work. split; [left|done].
        * right. exists w. split; [by right|done].
      + intros [?|(w & Hw & Herr & Hs)]; [by left; left|].
        apply elem_of_cons in Hw as [->|Hw]; [left; by right|].
        right. by exists w. }
  rewrite Hgen. simpl. unfold flag at 1. rewrite lookup_empty. simpl.
  split; [by intros [?|?]|by right].
Qed.

(** X3. After a run from the initial state, the commit IDs marked as
    processed are those of the results that reached the statistics update. *)
Theorem processed_ids_of_run (projectID id : string) (works : list commitWork.t) :
  flag (Reducer.processedCommits (Reducer.run projectID Reducer.init works)) id = true ↔
  ∃ work, work ∈ Reducer.counted projectID Reducer.init works ∧
          Commit.ID (commitWork.commit work) = id.
Proof.
  split.
  - intros Hflag. by apply processed_was_counted in Hflag as [?|?].
  - assert (∀ st,
      (∃ work, work ∈ Reducer.counted projectID st works ∧
               Commit.ID (commitWork.commit work) = id) →
      flag (Reducer.processedCommits (Reducer.run projectID st works)) id = true)
      as Hgen; [|apply Hgen].
    unfold Reducer.run. induction works as [|work works IH]; intros st; simpl.
    { intros (w & Hw & _). by apply elem_of_nil in Hw. }
    intros (w & Hw & Hid). destruct (Reducer.counts st work) eqn:Hc.
    + apply elem_of_cons in Hw as [->|Hw].
      * assert (flag (Reducer.processedCommits (Reducer.step projectID st work)) id
                = true) as Hnow.
        { rewrite step_counts by done. simpl. rewrite Hid. apply flag_insert_eq. }
        clear IH. revert Hnow. generalize (Reducer.step projectID st work).
        induction works as [|w' works IH']; intros st' Hnow; simpl; [done|].
        apply IH'. by apply step_processed_mono.
      * apply IH. by exists w.
    + apply IH. by exists w.
Qed.

(** ** The totals of a run *)

Lemma account_user_at_ne (projectID : string) (stats : gmap string UserStats.t)
    (author a : string) (diff : CommitStats.t) :
  a ≠ author →
  user_at (Reducer.account projectID stats author diff) a = user_at stats a.
Proof. intros Hne. unfold user_at. by rewrite account_lookup_ne. Qed.

Lemma account_user_at_eq (projectID : string) (stats : gmap string UserStats.t)
    (author : string) (diff : CommitStats.t) :
  user_at (Reducer.account projectID stats author diff) author
  = let old := user_at stats author in
    let oldp := project_at (UserStats.Projects old) projectID in
    UserStats.mk
      (UserStats.Additions old +! CommitStats.Additions diff)
      (UserStats.Deletions old +! CommitStats.Deletions diff)
      (UserStats.Changes old +! CommitStats.Total diff)
      (UserStats.Total old +! (CommitStats.Additions diff +! CommitStats.Deletions diff))
      (<[projectID :=
           ProjectStats.mk
             (ProjectStats.Additions oldp +! CommitStats.Additions diff)
             (ProjectStats.Deletions oldp +! CommitStats.Deletions diff)
             (ProjectStats.Changes oldp +! CommitStats.Total diff)]>
         (UserStats.Projects old)).
Proof.
  unfold user_at at 1. rewrite account_eq. cbv zeta. by rewrite lookup_insert_eq.
Qed.

Lemma accumulate_is_Some (projectID : string) (works : list commitWork.t)
    (stats : gmap string UserStats.t) (a : string) :
  is_Some (accumulate projectID stats works !! a) ↔
  is_Some (stats !! a) ∨
  ∃ work, work ∈ works ∧ Commit.AuthorName (commitWork.commit work) = a.
Proof.
  unfold accumulate. revert stats.
  induction works as [|work works IH]; intros stats; simpl.
  { split; [by left|]. intros [?|(w & Hw & _)]; [done|]. by apply elem_of_nil in Hw. }
  rewrite IH, account_eq. cbv zeta.
  destruct (decide (Commit.AuthorName (commitWork.commit work) = a)) as [Ha|Hne].
  - rewrite Ha, lookup_insert_eq. split.
    + intros _. right. exists work. split; [left|done].
    + intros _. left. by eexists.
  - rewrite lookup_insert_ne by done. split.
    + intros [?|(w & Hw & Hwa)]; [by left|]. right. exists w. split; [by right|done].
    + intros [?|(w & Hw & Hwa)]; [by left|].
      apply elem_of_cons in Hw as [->|Hw]; [done|]. right. by exists w.
Qed.

(** X4. An author has an entry in the statistics of a run from the initial
    state exactly when one of the author's commits reached the statistics
    update; an author whose commits were all dropped is absent. *)
Theorem result_authors (projectID a : string) (works : list commitWork.t) :
  is_Some (Reducer.stats (Reducer.run projectID Reducer.init works) !! a) ↔
  ∃ work, work ∈ Reducer.counted projectID Reducer.init works ∧
          Commit.AuthorName (commitWork.commit work) = a.
Proof.
  rewrite run_stats_counted, accumulate_is_Some. simpl. rewrite lookup_empty.
  split; [|by right]. intros [[u Hu]|?]; [done|done].
Qed.

Section field_sums.

Variable projectID : string.
Variable fld : UserStats.t → Z.
Variable delta : CommitStats.t → Z.
Hypothesis fld_account : ∀ stats author diff,
  fld (user_at (Reducer.account projectID stats author diff) author)
  = wrap (fld (user_at stats author) + delta diff).

Lemma accumulate_field (works : list commitWork.t) (stats : gmap string UserStats.t)
    (a : string) :
  in_int (fld (user_at stats a)) →
  fld (user_at (accumulate projectID stats works) a)
  = wrap (fld (user_at stats a) + diff_sum delta (by_author a works)).
Proof.
  unfold accumulate, by_author. revert stats.
  induction works as [|work works IH]; intros stats Hin; simpl.
  { by rewrite Z.add_0_r, wrap_exact. }
  rewrite filter_cons. case_decide as Ha; simpl.
  - rewrite IH.
    + rewrite <-Ha at 1. rewrite fld_account, Ha, wrap_add_l. f_equal. lia.
    + rewrite <-Ha. rewrite fld_account. apply wrap_in_int.
  - rewrite IH; rewrite account_user_at_ne by done; done.
Qed.

End field_sums.

(** X5. In the statistics of a run from the initial state, an author's
    additions, deletions, changes and total are the sums of diff.additions,
    diff.deletions, diff.total and diff.additions + diff.deletions over the
    author's counted commits, stored in an [int]; the author's entry for the
    project carries the first three sums. *)
Theorem result_totals (projectID a : string) (works : list commitWork.t) :
  let mine := by_author a (Reducer.counted projectID Reducer.init works) in
  let u := user_at (Reducer.stats (Reducer.run projectID Reducer.init works)) a in
  let p := project_at (UserStats.Projects u) projectID in
  UserStats.Additions u = wrap (diff_sum CommitStats.Additions mine) ∧
  UserStats.Deletions u = wrap (diff_sum CommitStats.Deletions mine) ∧
  UserStats.Changes u = wrap (diff_sum CommitStats.Total mine) ∧
  UserStats.Total u
  = wrap (diff_sum (λ d, CommitStats.Additions d + CommitStats.Deletions d) mine) ∧
  ProjectStats.Additions p = wrap (diff_sum CommitStats.Additions mine) ∧
  ProjectStats.Deletions p = wrap (diff_sum CommitStats.Deletions mine) ∧
  ProjectStats.Changes p = wrap (diff_sum CommitStats.Total mine).
Proof.
  intros mine u p. subst p u mine. rewrite run_stats_counted. simpl.
  assert (user_at ∅ a = UserStats.zero) as Hzero.
  { unfold user_at. by rewrite lookup_empty. }
  assert (in_int 0) as H0 by (unfold in_int, int_min, int_max; lia).
  repeat split.
  - rewrite (accumulate_field projectID UserStats.Additions CommitStats.Additions);
      [by rewrite Hzero| |by rewrite Hzero].
    intros stats author diff. by rewrite account_user_at_eq.
  - rewrite (accumulate_field projectID UserStats.Deletions CommitStats.Deletions);
      [by rewrite Hzero| |by rewrite Hzero].
    intros stats author diff. by rewrite account_user_at_eq.
  - rewrite (accumulate_field projectID UserStats.Changes CommitStats.Total);
      [by rewrite Hzero| |by rewrite Hzero].
    intros stats author diff. by rewrite account_user_at_eq.
  - rewrite (accumulate_field projectID UserStats.Total
               (λ d, CommitStats.Additions d + CommitStats.Deletions d));
      [by rewrite Hzero| |by rewrite Hzero].
    intros stats author diff. rewrite account_user_at_eq. cbv zeta. simpl.
    unfold int_add. by rewrite wrap_add_r.
  - rewrite (accumulate_field projectID
               (λ u, ProjectStats.Additions (project_at (UserStats.Projects u) projectID))
               CommitStats.Additions);
      [by rewrite Hzero| |by rewrite Hzero].
    intros stats author diff. rewrite account_user_at_eq. cbv zeta. simpl.
    unfold project_at at 1. by rewrite lookup_insert_eq.
  - rewrite (accumulate_field projectID
               (λ u, ProjectStats.Deletions (project_at (UserStats.Projects u) projectID))
               CommitStats.Deletions);
      [by rewrite Hzero| |by rewrite Hzero].
    intros stats author diff. rewrite account_user_at_eq. cbv zeta. simpl.
    unfold project_at at 1. by rewrite lookup_insert_eq.
  - rewrite (accumulate_field projectID
               (λ u, ProjectStats.Changes (project_at (UserStats.Projects u) projectID))
               CommitStats.Total);
      [by rewrite Hzero| |by rewrite Hzero].
    intros stats author diff. rewrite account_user_at_eq. cbv zeta. simpl.
    unfold project_at at 1. by rewrite lookup_insert_eq.
Qed.

(** ** Order of arrival *)

Lemma account_lookup (projectID : string) (stats : gmap string UserStats.t)
    (author a : string) (diff : CommitStats.t) :
  Reducer.account projectID stats author diff !! a
  = if decide (a = author) then Some (bump projectID (user_at stats author) diff)
    else stats !! a.
Proof.
  rewrite account_eq. cbv zeta. case_decide as Ha.
  - subst a. by rewrite lookup_insert_eq.
  - by rewrite lookup_insert_ne.
Qed.

Lemma bump_swap (projectID : string) (u : UserStats.t) (d1 d2 : CommitStats.t) :
  bump projectID (bump projectID u d1) d2 = bump projectID (bump projectID u d2) d1.
Proof.
  unfold bump. simpl. unfold project_at. rewrite !lookup_insert_eq. simpl.
  rewrite !insert_insert_eq.
  f_equal; try apply int_add_swap.
  f_equal. f_equal; apply int_add_swap.
Qed.

Lemma account_swap (projectID : string) (stats : gmap string UserStats.t)
    (a1 a2 : string) (d1 d2 : CommitStats.t) :
  Reducer.account projectID (Reducer.account projectID stats a1 d1) a2 d2
  = Reducer.account projectID (Reducer.account projectID stats a2 d2) a1 d1.
Proof.
  apply map_eq. intros a. rewrite !account_lookup. unfold user_at.
  rewrite !account_lookup.
  destruct (decide (a = a2)) as [Ha2|Hn2]; destruct (decide (a = a1)) as [Ha1|Hn1].
  - subst a a2. rewrite !decide_True by done. simpl. f_equal. apply bump_swap.
  - subst a. by rewrite (decide_False (P := a2 = a1)) by done.
  - subst a. by rewrite (decide_False (P := a1 = a2)) by done.
  - done.
Qed.

(** The statistics update reads a result through its signature only. *)
Lemma accumulate_signatures (projectID : string) (works : list commitWork.t)
    (stats : gmap string UserStats.t) :
  accumulate projectID stats works
  = foldl (λ acc s, Reducer.account projectID acc
                      (CommitIdentifier.AuthorName s) (CommitIdentifier.Stats s))
          stats (Reducer.identifier_of <$> works).
Proof. unfold accumulate. by rewrite foldl_fmap. Qed.

Section arrival_order.

Variable projectID : string.

Lemma counts_by_signature (st : Reducer.state) (work : commitWork.t)
    (works : list commitWork.t) :
  no_merges (work :: works) → linked st (work :: works) →
  Reducer.counts st work = true ↔
  commitWork.err work = None ∧
  flag (Reducer.commitSignatures st) (Reducer.identifier_of work) = false.
Proof.
  intros Hnm Hlink. rewrite counts_true_iff. split.
  - by intros (? & ? & _).
  - intros [Herr Hsig]. repeat split; try done.
    + intros [Hlen _]. specialize (Hnm work (list_elem_of_here _ _) Herr). lia.
    + destruct (flag (Reducer.processedCommits st) _) eqn:Hid; [|done].
      rewrite (Hlink work (list_elem_of_here _ _) Herr Hid) in Hsig. done.
Qed.

Lemma linked_step (st : Reducer.state) (work : commitWork.t)
    (works : list commitWork.t) :
  id_fixes_signature (work :: works) → linked st (work :: works) →
  linked (Reducer.step projectID st work) works.
Proof.
  intros Hfix Hlink w Hw Herr Hid.
  apply step_signatures.
  destruct (Reducer.counts st work) eqn:Hc.
  - rewrite step_counts in Hid by done. simpl in Hid.
    destruct (decide (Commit.ID (commitWork.commit work)
                      = Commit.ID (commitWork.commit w))) as [Heq|Hne].
    + right. apply counts_true_iff in Hc as (Herr0 & _). split; [done|].
      apply Hfix; [left|by right|done|done|done].
    + left. apply Hlink; [by right|done|].
      unfold flag in *. by rewrite lookup_insert_ne in Hid.
  - left. apply Hlink; [by right|done|].
    by rewrite (proj2 (step_drops projectID st work Hc)) in Hid.
Qed.

(** The signatures of the counted results: each once, and exactly those of
    the successful results that were not yet marked. *)
Lemma counted_signatures (works : list commitWork.t) (st : Reducer.state) :
  no_merges works → id_fixes_signature works → linked st works →
  NoDup (Reducer.identifier_of <$> Reducer.counted projectID st works) ∧
  ∀ s, s ∈ Reducer.identifier_of <$> Reducer.counted projectID st works ↔
       flag (Reducer.commitSignatures st) s = false ∧
       ∃ work, work ∈ works ∧ commitWork.err work = None ∧
               Reducer.identifier_of work = s.
Proof.
  revert st. induction works as [|work works IH]; intros st Hnm Hfix Hlink.
  { simpl. split; [constructor|]. intros s. split.
    - intros Hs. by apply elem_of_nil in Hs.
    - intros (_ & w & Hw & _). by apply elem_of_nil in Hw. }
  assert (no_merges works) as Hnm'.
  { intros w Hw. apply Hnm. by right. }
  assert (id_fixes_signature works) as Hfix'.
  { intros w1 w2 H1 H2. apply Hfix; by right. }
  destruct (IH (Reducer.step projectID st work) Hnm' Hfix'
              (linked_step st work works Hfix Hlink)) as [Hnd Hin].
  pose proof (counts_by_signature st work works Hnm Hlink) as Hcount.
  assert (∀ s, flag (Reducer.commitSignatures (Reducer.step projectID st work)) s = false ↔
               flag (Reducer.commitSignatures st) s = false ∧
               ¬ (commitWork.err work = None ∧ Reducer.identifier_of work = s)) as Hstep.
  { intros s. rewrite <-!not_true_iff_false, step_signatures. tauto. }
  simpl. destruct (Reducer.counts st work) eqn:Hc.
  - destruct (proj1 Hcount eq_refl) as [Herr Hsig]. split.
    + rewrite fmap_cons. constructor; [|done].
      rewrite Hin, Hstep. intros [[_ Hno] _]. by apply Hno.
    + intros s. rewrite fmap_cons, elem_of_cons, Hin, Hstep. split.
      * intros [->|[[Hs Hno] (w & Hw & Hwe & Hws)]].
        -- split; [done|]. exists work. split; [left|done].
        -- split; [done|]. exists w. split; [by right|done].
      * intros (Hs & w & Hw & Hwe & Hws).
        destruct (decide (s = Reducer.identifier_of work)) as [Heq|Hne]; [by left|].
        right. split; [split; [done|by intros [_ ?]]|].
        apply elem_of_cons in Hw as [->|Hw]; [done|]. by exists w.
  - split; [done|]. intros s. rewrite Hin, Hstep. split.
    + intros [[Hs Hno] (w & Hw & Hwe & Hws)].
      split; [done|]. exists w. split; [by right|done].
    + intros (Hs & w & Hw & Hwe & Hws).
      assert (¬ (commitWork.err work = None ∧ Reducer.identifier_of work = s)) as Hno.
      { intros [Herr Heq]. assert (false = true) as Habs; [|done].
        apply Hcount. by rewrite Heq. }
      split; [done|].
      apply elem_of_cons in Hw as [->|Hw]; [by destruct Hno|]. by exists w.
Qed.

(** X6. The statistics of a run do not depend on the order in which the
    results arrive, as long as no successful result is a merge commit and
    successful results with the same commit ID agree on message, author
    and diff statistics. *)
Theorem arrival_order_irrelevant (works works' : list commitWork.t) :
  no_merges works → id_fixes_signature works → works ≡ₚ works' →
  Reducer.stats (Reducer.run projectID Reducer.init works)
  = Reducer.stats (Reducer.run projectID Reducer.init works').
Proof.
  intros Hnm Hfix Hperm.
  assert (no_merges works') as Hnm'.
  { intros w Hw. apply Hnm. by rewrite Hperm. }
  assert (id_fixes_signature works') as Hfix'.
  { intros w1 w2 H1 H2. apply Hfix; by rewrite Hperm. }
  assert (∀ ws, linked Reducer.init ws) as Hlink.
  { intros ws w _ _ Hid. unfold flag in Hid. simpl in Hid.
    by rewrite lookup_empty in Hid. }
  destruct (counted_signatures works Reducer.init Hnm Hfix (Hlink _)) as [Hnd Hin].
  destruct (counted_signatures works' Reducer.init Hnm' Hfix' (Hlink _)) as [Hnd' Hin'].
  rewrite !run_stats_counted, !accumulate_signatures.
  apply foldl_commute_permutation.
  - intros acc s1 s2. apply account_swap.
  - apply NoDup_Permutation; [done|done|]. intros s. rewrite Hin, Hin'.
    split; intros (Hs & w & Hw & Hrest); (split; [done|]); exists w;
      (split; [|done]); [by rewrite <-Hperm|by rewrite Hperm].
Qed.

End arrival_order.

Lemma arrival_order_irrelevant_witness :
  Reducer.stats
    (Reducer.run "42" Reducer.init
       [Examples.ok Examples.commit0 Examples.diff_a;
        Examples.ok Examples.commit1 Examples.diff_b;
        Examples.ok Examples.commit0 Examples.diff_a])
  = Reducer.stats
      (Reducer.run "42" Reducer.init
         [Examples.ok Examples.commit1 Examples.diff_b;
          Examples.ok Examples.commit0 Examples.diff_a;
          Examples.ok Examples.commit0 Examples.diff_a]).
Proof.
  apply (arrival_order_irrelevant "42").
  - intros w Hw _. repeat (apply elem_of_cons in Hw as [->|Hw]; [simpl; lia|]).
    by apply elem_of_nil in Hw.
  - intros w1 w2 H1 H2 _ _.
    repeat (apply elem_of_cons in H1 as [->|H1];
            [repeat (apply elem_of_cons in H2 as [->|H2];
                     [first [reflexivity|discriminate]|]);
             by apply elem_of_nil in H2|]).
    by apply elem_of_nil in H1.
  - apply perm_swap.
Defined.

(** ** The retry loops *)

(** The loop stops at the first attempt that succeeds; when none does, it
    ends with the answer to the last attempt. *)
Lemma attempts_spec (call : nat → response) (left retry : nat) (last : response) :
  (∃ k body, (retry ≤ k < retry + left)%nat ∧ call k = Body body ∧
             (∀ j, (retry ≤ j < k)%nat → ∃ e, call j = Failed e) ∧
             attempts call retry left last = Body body) ∨
  ((∀ j, (retry ≤ j < retry + left)%nat → ∃ e, call j = Failed e) ∧
   attempts call retry left last
   = match left with O => last | S l => call (retry + l)%nat end).
Proof.
  revert retry last. induction left as [|left IH]; intros retry last; simpl.
  { right. split; [|done]. intros j Hj. lia. }
  destruct (call retry) as [body|e] eqn:Hcall.
  { left. exists retry, body. repeat split; try done; lia. }
  destruct (IH (S retry) (Failed e))
    as [(k & body & Hk & Hbody & Hbefore & Hres)|[Hall Hres]].
  - left. exists k, body. repeat split; try done; try lia.
    all: intros j Hj. all: destruct (decide (j = retry)) as [->|Hne]; [by exists e|].
    all: apply Hbefore; lia.
  - right. split.
    + intros j Hj. destruct (decide (j = retry)) as [->|Hne]; [by exists e|].
      apply Hall. lia.
    + rewrite Hres. destruct left as [|left'].
      * by rewrite Nat.add_0_r, Hcall.
      * f_equal. lia.
Qed.

Lemma attempts_body (call : nat → response) (body : string) :
  attempts call 0 maxRetries (Body "") = Body body ↔
  ∃ k, first_success call k body.
Proof.
  unfold first_success.
  destruct (attempts_spec call maxRetries 0 (Body ""))
    as [(k & b & Hk & Hb & Hbefore & Hres)|[Hall Hres]]; rewrite Hres.
  - split.
    + intros [= <-]. exists k. repeat split; try done; try lia.
      all: intros j Hj; apply Hbefore; lia.
    + intros (k' & Hk' & Hb' & Hbefore'). f_equal.
      destruct (Nat.lt_trichotomy k k') as [Hlt|[->|Hgt]].
      * destruct (Hbefore' k Hlt) as [e He]. congruence.
      * congruence.
      * destruct (Hbefore k') as [e He]; [lia|]. congruence.
  - unfold maxRetries in *. simpl. split.
    + intros Hlast. destruct (Hall 4%nat) as [e He]; [lia|]. congruence.
    + intros (k & Hk & Hb & _). destruct (Hall k) as [e He]; [lia|]. congruence.
Qed.

Lemma attempts_failed (call : nat → response) (e : error) :
  attempts call 0 maxRetries (Body "") = Failed e ↔ all_fail call e.
Proof.
  unfold all_fail.
  destruct (attempts_spec call maxRetries 0 (Body ""))
    as [(k & b & Hk & Hb & Hbefore & Hres)|[Hall Hres]]; rewrite Hres.
  - split; [done|]. intros [Hall _]. destruct (Hall k) as [e' He']; [lia|]. congruence.
  - unfold maxRetries in *. simpl. split.
    + intros Hlast. split; [|done]. intros j Hj. apply Hall. lia.
    + by intros [_ ?].
Qed.

Section retry_facts.

Variable decode_commits : string → option (list Commit.t).
Variable decode_commit : string → option Commit.t.
Variable fetch : transport.
Variable arrival : list commitWork.t → list commitWork.t.
Variables projectID startDate endDate : string.

Local Abbreviation list_attempts :=
  (Pipeline.list_attempts fetch projectID startDate endDate).
Local Abbreviation lister :=
  (Pipeline.lister decode_commits fetch projectID startDate endDate).
Local Abbreviation detail_attempts := (Pipeline.detail_attempts fetch projectID).
Local Abbreviation process_commit := (Pipeline.process_commit decode_commit fetch projectID).
Local Abbreviation workers := (Pipeline.workers decode_commit fetch projectID).
Local Abbreviation GetProjectCommitStats :=
  (Pipeline.GetProjectCommitStats decode_commits decode_commit fetch arrival
     projectID startDate endDate).

Lemma list_attempts_attempts (page left retry : nat) (last : response) :
  list_attempts page retry left last
  = attempts (fetch (ListCommits projectID startDate endDate page)) retry left last.
Proof.
  revert retry last. induction left as [|left IH]; intros retry last; simpl; [done|].
  destruct (fetch _ retry); [done|apply IH].
Qed.

(** X7. The retry loop of the listing returns the body of the first attempt
    that succeeds, when one of the five does, and otherwise the error of the
    fifth attempt; the answers to later attempts play no part. *)
Theorem listing_retry_outcome (page : nat) :
  (∀ body,
     list_attempts page 0 maxRetries (Body "") = Body body ↔
     ∃ k, first_success (fetch (ListCommits projectID startDate endDate page)) k body) ∧
  (∀ e,
     list_attempts page 0 maxRetries (Body "") = Failed e ↔
     all_fail (fetch (ListCommits projectID startDate endDate page)) e).
Proof.
  split.
  - intros body. rewrite list_attempts_attempts. apply attempts_body.
  - intros e. rewrite list_attempts_attempts. apply attempts_failed.
Qed.

Lemma detail_attempts_attempts (commit : Commit.t) (seq left retry : nat)
    (last : response) :
  (8 ≤ String.length (Commit.ID commit))%nat →
  detail_attempts commit seq retry left last
  = Ok (attempts (fetch (CommitDetail projectID (Commit.ID commit) seq))
          retry left last).
Proof.
  intros Hlen. revert retry last.
  induction left as [|left IH]; intros retry last; simpl; [done|].
  assert ((if (0 <? retry)%nat then slice_to (Commit.ID commit) 8 else Ok ""%string)
          = Ok (if (0 <? retry)%nat then substring 0 8 (Commit.ID commit) else ""%string))
    as ->.
  { destruct (0 <? retry)%nat; [by apply slice_to_long|done]. }
  unfold mbind, exec_bind.
  destruct (fetch _ retry); [done|apply IH].
Qed.

(** X8. A worker turns a commit with an ID of at least eight characters
    into exactly one result for that commit: successful, with the decoded
    diff statistics, when the first successful attempt gives a body that
    decodes; carrying the decoding error when that body does not decode;
    carrying the error of the fifth attempt when all five fail. *)
Theorem worker_outcome (seq : nat) (commit : Commit.t) :
  (8 ≤ String.length (Commit.ID commit))%nat →
  let call := fetch (CommitDetail projectID (Commit.ID commit) seq) in
  (∀ k body detail,
     first_success call k body → decode_commit body = Some detail →
     process_commit seq commit
     = Ok (commitWork.mk "" commit (Commit.Stats detail) None)) ∧
  (∀ k body,
     first_success call k body → decode_commit body = None →
     process_commit seq commit
     = Ok (commitWork.mk "" commit CommitStats.zero (Some UnmarshalError))) ∧
  (∀ e,
     all_fail call e →
     process_commit seq commit
     = Ok (commitWork.mk "" commit CommitStats.zero (Some e))).
Proof.
  intros Hlen call. unfold Pipeline.process_commit.
  rewrite detail_attempts_attempts by done. fold call.
  unfold mbind, exec_bind. rewrite slice_to_long by done.
  repeat split.
  - intros k body detail Hfirst Hdec.
    assert (attempts call 0 maxRetries (Body "") = Body body) as ->
      by (apply attempts_body; by exists k).
    by rewrite Hdec.
  - intros k body Hfirst Hdec.
    assert (attempts call 0 maxRetries (Body "") = Body body) as ->
      by (apply attempts_body; by exists k).
    by rewrite Hdec.
  - intros e Hall.
    assert (attempts call 0 maxRetries (Body "") = Failed e) as ->
      by (by apply attempts_failed).
    done.
Qed.

Lemma process_commit_commit (seq : nat) (commit : Commit.t) (work : commitWork.t) :
  process_commit seq commit = Ok work → commitWork.commit work = commit.
Proof.
  unfold Pipeline.process_commit.
  destruct (detail_attempts commit seq 0 maxRetries (Body "")) as [r|]; [|done].
  unfold mbind, exec_bind.
  destruct r as [body|e].
  - destruct (decode_commit body).
    + by intros [= <-].
    + destruct (slice_to (Commit.ID commit) 8); [|done]. by intros [= <-].
  - destruct (slice_to (Commit.ID commit) 8); [|done]. by intros [= <-].
Qed.

Lemma workers_commits (commits : list Commit.t) (seq : nat) (works : list commitWork.t) :
  workers seq commits = Ok works → commitWork.commit <$> works = commits.
Proof.
  revert seq works. induction commits as [|c commits IH]; intros seq works; simpl.
  { by intros [= <-]. }
  destruct (process_commit seq c) as [work|] eqn:Hwork; [|done].
  unfold mbind, exec_bind.
  destruct (workers (S seq) commits) as [rest|] eqn:Hrest; [|done].
  intros [= <-]. rewrite fmap_cons.
  by rewrite (process_commit_commit seq c work Hwork), (IH (S seq) rest Hrest).
Qed.

(** The listing goroutine sends the commits of every page up to the first
    page without commits, and no error. *)
Lemma lister_success (pages : list (list Commit.t)) (start fuel : nat) :
  (∀ i commits, pages !! i = Some commits →
                page_lists decode_commits fetch projectID startDate endDate
                  (start + i) commits) →
  page_empty decode_commits fetch projectID startDate endDate (start + length pages) →
  (length pages < fuel)%nat →
  lister fuel start = Some (concat pages, None).
Proof.
  revert start fuel. induction pages as [|commits pages IH]; intros start fuel Hok Hend Hfuel.
  - destruct fuel as [|fuel]; [simpl in Hfuel; lia|].
    simpl in Hend. rewrite Nat.add_0_r in Hend. cbn [Pipeline.lister concat].
    destruct Hend as (body & Hbody & Hdec). by rewrite Hbody, Hdec.
  - destruct fuel as [|fuel]; [simpl in Hfuel; lia|].
    destruct (Hok 0%nat commits eq_refl) as (body & Hbody & Hdec & Hne).
    rewrite Nat.add_0_r in Hbody.
    cbn [Pipeline.lister concat]. rewrite Hbody, Hdec.
    destruct commits as [|c commits]; [done|].
    rewrite (IH (S start) fuel); [done| | |simpl in Hfuel; lia].
    + intros i cs Hi. replace (S start + i)%nat with (start + S i)%nat by lia.
      by apply Hok.
    + simpl in Hend. by replace (S start + length pages)%nat
        with (start + S (length pages))%nat by lia.
Qed.

(** X9. When every page up to the first page without commits is obtained
    and decodes, and the commit IDs have at least eight characters, the
    call succeeds: each listed commit gives one result, in the order of the
    listing, and the map returned is the statistics of the result loop over
    these results in their order of arrival. *)
Theorem listing_success_returns_statistics (pages : list (list Commit.t)) (fuel : nat) :
  (∀ i commits, pages !! i = Some commits →
                page_lists decode_commits fetch projectID startDate endDate
                  (S i) commits) →
  page_empty decode_commits fetch projectID startDate endDate (S (length pages)) →
  (∀ c, c ∈ concat pages → (8 ≤ String.length (Commit.ID c))%nat) →
  (length pages < fuel)%nat →
  ∃ works,
    workers 0 (concat pages) = Ok works ∧
    commitWork.commit <$> works = concat pages ∧
    GetProjectCommitStats fuel
    = Stats (Reducer.stats (Reducer.run projectID Reducer.init (arrival works))).
Proof.
  intros Hok Hend Hlong Hfuel.
  destruct (workers_long decode_commit fetch projectID (concat pages) 0 Hlong)
    as [works Hworks].
  exists works. split; [done|]. split; [by apply (workers_commits _ 0%nat)|].
  unfold Pipeline.GetProjectCommitStats.
  by rewrite (lister_success pages 1 fuel Hok Hend Hfuel), Hworks.
Qed.

End retry_facts.

Lemma worker_outcome_witness :
  Pipeline.process_commit Examples.decode_commit Examples.healthy "42" 0 Examples.commit0
  = Ok (commitWork.mk "" Examples.commit0 Examples.diff_a None).
Proof.
  apply (proj1 (worker_outcome Examples.decode_commit Examples.healthy "42"
                  0%nat Examples.commit0 ltac:(simpl; lia))
           0%nat "detail_a"%string (Commit.mk "" "" Examples.diff_a [] "")).
  - split; [unfold maxRetries; lia|]. split; [reflexivity|]. intros j Hj. lia.
  - reflexivity.
Defined.

Lemma listing_success_returns_statistics_witness :
  ∃ works,
    Pipeline.workers Examples.decode_commit Examples.healthy "42" 0
      [Examples.commit0; Examples.commit1; Examples.commit2] = Ok works ∧
    commitWork.commit <$> works = [Examples.commit0; Examples.commit1; Examples.commit2] ∧
    Pipeline.GetProjectCommitStats Examples.decode_commits Examples.decode_commit
      Examples.healthy Examples.in_order "42" "2024-01-01" "2024-01-31" 4
    = Stats (Reducer.stats (Reducer.run "42" Reducer.init (Examples.in_order works))).
Proof.
  apply (listing_success_returns_statistics
           Examples.decode_commits Examples.decode_commit Examples.healthy
           Examples.in_order "42" "2024-01-01" "2024-01-31"
           [[Examples.commit0; Examples.commit1]; [Examples.commit2]] 4%nat).
  - intros [|[|[|i]]] commits Hi; try discriminate; injection Hi as <-.
    + exists "page1"%string. split; [reflexivity|]. split; [reflexivity|discriminate].
    + exists "page2"%string. split; [reflexivity|]. split; [reflexivity|discriminate].
  - exists "[]"%string. split; reflexivity.
  - intros c Hc. simpl in Hc.
    repeat (apply elem_of_cons in Hc as [->|Hc]; [simpl; lia|]).
    by apply elem_of_nil in Hc.
  - simpl. lia.
Defined.

(** ** The allow-list and the sums of the merge *)

Lemma targetUsersMap_lookup (targetUsers : list string) (m : gmap string bool)
    (a : string) :
  foldl (λ m user, <[user := true]> m) m targetUsers !! a
  = if decide (a ∈ targetUsers) then Some true else m !! a.
Proof.
  revert m. induction targetUsers as [|user rest IH]; intros m; cbn [foldl].
  { case_decide as Hin; [by apply elem_of_nil in Hin|done]. }
  rewrite IH.
  destruct (decide (a ∈ rest)) as [Hin|Hnin];
    destruct (decide (a ∈ user :: rest)) as [Hin'|Hnin']; try done.
  - exfalso. apply Hnin'. by right.
  - apply elem_of_cons in Hin' as [->|?]; [by rewrite lookup_insert_eq|done].
  - rewrite lookup_insert_ne; [done|]. intros ->. apply Hnin'. left.
Qed.

Lemma allowed_targetUsersMap (targetUsers : list string) (a : string) :
  allowed (Merge.targetUsersMap targetUsers) a = true ↔
  targetUsers = [] ∨ a ∈ targetUsers.
Proof.
  unfold allowed, Merge.targetUsersMap.
  destruct targetUsers as [|user rest].
  { simpl. split; [by left|done]. }
  change (0 <? length (user :: rest))%nat with true. cbv iota.
  set (m := foldl (λ m user, <[user := true]> m) ∅ (user :: rest)).
  assert (m !! user = Some true) as Huser.
  { unfold m. rewrite targetUsersMap_lookup. rewrite decide_True; [done|left]. }
  assert ((0 <? size m)%nat = true) as ->.
  { apply Nat.ltb_lt. destruct (size m) eqn:Hsize; [|lia].
    apply map_size_empty_iff in Hsize. rewrite Hsize in Huser.
    by rewrite lookup_empty in Huser. }
  simpl. rewrite negb_involutive. unfold flag, m. rewrite targetUsersMap_lookup.
  destruct (decide (a ∈ user :: rest)) as [Hin|Hnin]; simpl.
  - split; [by right|done].
  - rewrite lookup_empty. simpl. split; [done|]. by intros [?|?].
Qed.

Section merge_content.

Variable range : ∀ A : Type, gmap string A → list (string * A).
Hypothesis range_ok : enumerates range.
Variable targets : gmap string bool.

Lemma merge_stats_user_at (merged stats : gmap string UserStats.t) (a : string) :
  user_at (Merge.merge_stats range targets merged stats) a
  = match stats !! a with
    | Some d => if allowed targets a then add_user (user_at merged a) d
                else user_at merged a
    | None => user_at merged a
    end.
Proof.
  unfold user_at at 1. rewrite merge_stats_lookup by done.
  destruct (stats !! a); [|done]. by destruct (allowed targets a).
Qed.

Lemma merge_fold_is_Some (l : list (gmap string UserStats.t))
    (merged : gmap string UserStats.t) (a : string) :
  is_Some (foldl (Merge.merge_stats range targets) merged l !! a) ↔
  is_Some (merged !! a) ∨
  (allowed targets a = true ∧ ∃ stats, stats ∈ l ∧ is_Some (stats !! a)).
Proof.
  revert merged. induction l as [|stats l IH]; intros merged; simpl.
  { split; [by left|]. intros [?|(_ & m & Hm & _)]; [done|]. by apply elem_of_nil in Hm. }
  rewrite IH, merge_stats_lookup by done. split.
  - intros [Hsome|(Hal & m & Hm & Hma)].
    + destruct (stats !! a) as [d|] eqn:Hd; [|by left].
      destruct (allowed targets a) eqn:Hal; [|by left].
      right. split; [done|]. exists stats. split; [left|by rewrite Hd].
    + right. split; [done|]. exists m. split; [by right|done].
  - intros [Hsome|(Hal & m & Hm & Hma)].
    + left. destruct (stats !! a); [|done]. by destruct (allowed targets a).
    + apply elem_of_cons in Hm as [->|Hm].
      * left. destruct Hma as [d ->]. by rewrite Hal.
      * right. split; [done|]. by exists m.
Qed.

Lemma merge_fold_field (fld : UserStats.t → Z) (l : list (gmap string UserStats.t))
    (merged : gmap string UserStats.t) (a : string) :
  (∀ u d, in_int (fld u) → fld (add_user u d) = wrap (fld u + fld d)) →
  allowed targets a = true →
  in_int (fld (user_at merged a)) →
  fld (user_at (foldl (Merge.merge_stats range targets) merged l) a)
  = wrap (fld (user_at merged a) + merge_sum fld a l).
Proof.
  intros Hadd Hal. revert merged. induction l as [|stats l IH]; intros merged Hin; simpl.
  { by rewrite Z.add_0_r, wrap_exact. }
  rewrite IH; rewrite merge_stats_user_at, Hal; destruct (stats !! a) as [d|]; try done.
  - rewrite Hadd by done. rewrite wrap_add_l. f_equal. lia.
  - rewrite Hadd by done. apply wrap_in_int.
Qed.

End merge_content.

(** X10. An author is in the merged result exactly when the author is in
    one of the per-project maps and passes the allow-list: with an empty
    allow-list every author passes, with a non-empty one only the listed
    authors do. *)
Theorem merge_authors (range : ∀ A : Type, gmap string A → list (string * A))
    (projectsStats : list (gmap string UserStats.t)) (targetUsers : list string)
    (a : string) :
  enumerates range →
  is_Some (Merge.MergeProjectStats range projectsStats targetUsers !! a) ↔
  (targetUsers = [] ∨ a ∈ targetUsers) ∧
  ∃ stats, stats ∈ projectsStats ∧ is_Some (stats !! a).
Proof.
  intros Hrange. unfold Merge.MergeProjectStats.
  rewrite merge_fold_is_Some by done. rewrite lookup_empty, allowed_targetUsersMap.
  split; [|by right]. intros [[u Hu]|?]; done.
Qed.

Lemma merge_authors_witness :
  is_Some (Merge.MergeProjectStats Examples.in_map_order
             [Examples.stats_A; Examples.stats_B; Examples.stats_C] ["alice"]
           !! "alice"%string) ∧
  ¬ is_Some (Merge.MergeProjectStats Examples.in_map_order
               [Examples.stats_A; Examples.stats_B; Examples.stats_C] ["alice"]
             !! "bob"%string).
Proof.
  split.
  - apply (merge_authors Examples.in_map_order); [by intros A m|].
    split; [right; left|]. exists Examples.stats_A. split; [left|by eexists].
  - intros Hbob.
    apply (merge_authors Examples.in_map_order) in Hbob as [[Hnil|Hin] _];
      [discriminate| |by intros A m].
    apply elem_of_cons in Hin as [Heq|Hin]; [discriminate|]. by apply elem_of_nil in Hin.
Defined.

(** X11. For an author who passes the allow-list, each top-level total and
    each number of a per-project entry of the merged result is the sum of
    that number over the per-project maps that hold the author, stored in
    an [int]. *)
Theorem merge_totals (range : ∀ A : Type, gmap string A → list (string * A))
    (projectsStats : list (gmap string UserStats.t)) (targetUsers : list string)
    (a projectID : string) :
  enumerates range →
  targetUsers = [] ∨ a ∈ targetUsers →
  let u := user_at (Merge.MergeProjectStats range projectsStats targetUsers) a in
  UserStats.Additions u = wrap (merge_sum UserStats.Additions a projectsStats) ∧
  UserStats.Deletions u = wrap (merge_sum UserStats.Deletions a projectsStats) ∧
  UserStats.Changes u = wrap (merge_sum UserStats.Changes a projectsStats) ∧
  UserStats.Total u = wrap (merge_sum UserStats.Total a projectsStats) ∧
  project_field ProjectStats.Additions projectID u
  = wrap (merge_sum (project_field ProjectStats.Additions projectID) a projectsStats) ∧
  project_field ProjectStats.Deletions projectID u
  = wrap (merge_sum (project_field ProjectStats.Deletions projectID) a projectsStats) ∧
  project_field ProjectStats.Changes projectID u
  = wrap (merge_sum (project_field ProjectStats.Changes projectID) a projectsStats).
Proof.
  intros Hrange Hal u. subst u. unfold Merge.MergeProjectStats.
  apply allowed_targetUsersMap in Hal.
  assert (user_at ∅ a = UserStats.zero) as Hzero.
  { unfold user_at. by rewrite lookup_empty. }
  assert (in_int 0) as H0 by (unfold in_int, int_min, int_max; lia).
  assert (∀ f : ProjectStats.t → Z,
            (∀ p q, f (add_project p q) = f p +! f q) → f ProjectStats.zero = 0 →
            ∀ u d, in_int (project_field f projectID u) →
                   project_field f projectID (add_user u d)
                   = wrap (project_field f projectID u + project_field f projectID d))
    as Hproj.
  { intros f Hf Hf0 u d Hin. unfold project_field, project_at, add_user in *.
    simpl. rewrite add_projects_lookup. unfold project_at.
    destruct (UserStats.Projects d !! projectID) as [q|]; simpl.
    - apply Hf.
    - by rewrite Hf0, Z.add_0_r, wrap_exact. }
  repeat split.
  - by rewrite (merge_fold_field range Hrange _ UserStats.Additions), Hzero.
  - by rewrite (merge_fold_field range Hrange _ UserStats.Deletions), Hzero.
  - by rewrite (merge_fold_field range Hrange _ UserStats.Changes), Hzero.
  - by rewrite (merge_fold_field range Hrange _ UserStats.Total), Hzero.
  - rewrite (merge_fold_field range Hrange _
               (project_field ProjectStats.Additions projectID));
      [by rewrite Hzero| |done|by rewrite Hzero].
    by apply Hproj.
  - rewrite (merge_fold_field range Hrange _
               (project_field ProjectStats.Deletions projectID));
      [by rewrite Hzero| |done|by rewrite Hzero].
    by apply Hproj.
  - rewrite (merge_fold_field range Hrange _
               (project_field ProjectStats.Changes projectID));
      [by rewrite Hzero| |done|by rewrite Hzero].
    by apply Hproj.
Qed.

Lemma merge_totals_witness :
  UserStats.Additions
    (user_at (Merge.MergeProjectStats Examples.in_map_order
                [Examples.stats_A; Examples.stats_B; Examples.stats_C] []) "alice")
  = wrap (10 + (3 + 0)).
Proof.
  apply (merge_totals Examples.in_map_order
           [Examples.stats_A; Examples.stats_B; Examples.stats_C] [] "alice" "1").
  - by intros A m.
  - by left.
Defined.

Section merge_projects.

Variable range : ∀ A : Type, gmap string A → list (string * A).
Hypothesis range_ok : enumerates range.
Variable targets : gmap string bool.

Lemma merge_fold_project_untouched (l : list (gmap string UserStats.t))
    (merged : gmap string UserStats.t) (a projectID : string) :
  (∀ stats u, stats ∈ l → stats !! a = Some u →
              UserStats.Projects u !! projectID = None) →
  UserStats.Projects (user_at (foldl (Merge.merge_stats range targets) merged l) a)
    !! projectID
  = UserStats.Projects (user_at merged a) !! projectID.
Proof.
  revert merged. induction l as [|stats l IH]; intros merged Hnone; simpl; [done|].
  rewrite IH.
  - rewrite merge_stats_user_at by done.
    destruct (stats !! a) as [d|] eqn:Hd; [|done].
    destruct (allowed targets a); [|done].
    unfold add_user. simpl. rewrite add_projects_lookup.
    by rewrite (Hnone stats d (list_elem_of_here _ _) Hd).
  - intros m u Hm. apply Hnone. by right.
Qed.

End merge_projects.

(** X12. The merge carries a project's entry over unchanged when only one
    of the per-project maps holds an entry of that project for the author:
    for an author who passes the allow-list, the merged entry of the project
    is the entry of that map. *)
Theorem merge_keeps_project_entry
    (range : ∀ A : Type, gmap string A → list (string * A))
    (before after : list (gmap string UserStats.t))
    (stats : gmap string UserStats.t) (targetUsers : list string)
    (a projectID : string) (u : UserStats.t) (p : ProjectStats.t) :
  enumerates range →
  targetUsers = [] ∨ a ∈ targetUsers →
  stats !! a = Some u →
  UserStats.Projects u !! projectID = Some p →
  project_in_int p →
  (∀ other u', other ∈ before ++ after → other !! a = Some u' →
               UserStats.Projects u' !! projectID = None) →
  UserStats.Projects
    (user_at (Merge.MergeProjectStats range (before ++ stats :: after) targetUsers) a)
    !! projectID
  = Some p.
Proof.
  intros Hrange Hal Hu Hp Hint Hothers. unfold Merge.MergeProjectStats.
  apply allowed_targetUsersMap in Hal.
  rewrite foldl_app. cbn [foldl].
  rewrite merge_fold_project_untouched; [|done|].
  2: { intros m u' Hm. apply Hothers. apply elem_of_app. by right. }
  rewrite merge_stats_user_at, Hu, Hal by done.
  unfold add_user. simpl. rewrite add_projects_lookup, Hp. f_equal.
  unfold project_at.
  rewrite merge_fold_project_untouched; [|done|].
  2: { intros m u' Hm. apply Hothers. apply elem_of_app. by left. }
  unfold user_at. rewrite lookup_empty. simpl. rewrite lookup_empty. simpl.
  by apply add_project_zero.
Qed.

Lemma merge_keeps_project_entry_witness :
  UserStats.Projects
    (user_at (Merge.MergeProjectStats Examples.in_map_order
                ([Examples.stats_A] ++ Examples.stats_B :: [Examples.stats_C]) [])
             "alice")
    !! "2"%string
  = Some (ProjectStats.mk 3 4 9).
Proof.
  apply (merge_keeps_project_entry Examples.in_map_order
           [Examples.stats_A] [Examples.stats_C] Examples.stats_B [] "alice" "2"
           (UserStats.mk 3 4 9 7 {[ "2"%string := ProjectStats.mk 3 4 9 ]})).
  - by intros A m.
  - by left.
  - reflexivity.
  - reflexivity.
  - unfold project_in_int, in_int, int_min, int_max. simpl. lia.
  - intros other u' Hother Hu'. simpl in Hother.
    apply elem_of_cons in Hother as [->|Hother].
    { vm_compute in Hu'. injection Hu' as <-. reflexivity. }
    apply elem_of_cons in Hother as [->|Hother]; [discriminate|].
    by apply elem_of_nil in Hother.
Defined.

(** ** The export *)

Section export_facts.

Variable range : ∀ A : Type, gmap string A → list (string * A).
Variable fs : filesystem.
Variable projects : list ProjectInfo.t.

Local Abbreviation write_rows := (Excel.write_rows fs projects).
Local Abbreviation export_users := (Excel.export_users range fs projects).
Local Abbreviation ExportStatsToCSV := (Excel.ExportStatsToCSV range fs projects).

Lemma write_rows_prefix (user : string) (entries : list (string * ProjectStats.t))
    (n : nat) :
  (write_rows user n entries).1 `prefix_of` (row_of projects user <$> entries) ∧
  ((write_rows user n entries).2 = None →
   (write_rows user n entries).1 = row_of projects user <$> entries).
Proof.
  revert n. induction entries as [|[projectID projectStat] entries IH]; intros n; simpl.
  { split; [done|done]. }
  unfold row_of at 1 3. simpl.
  destruct (Excel.find_project projects projectID) as [name path]. simpl.
  destruct (write fs user n) as [e|]; simpl.
  { split; [apply prefix_nil|done]. }
  specialize (IH (S n)). destruct (write_rows user (S n) entries) as [rows err].
  simpl in *. destruct IH as [Hpre Hall]. split.
  - by apply prefix_cons.
  - intros Herr. by rewrite Hall.
Qed.


Lemma export_users_prefix (entries : list (string * UserStats.t)) :
  (export_users entries).1.*1 `prefix_of` entries.*1 ∧
  ((export_users entries).2 = None →
   (export_users entries).1 = file_of range projects <$> entries).
Proof.
  induction entries as [|[user stat] entries IH]; simpl.
  { split; [done|done]. }
  destruct (create fs user) as [e|]; simpl.
  { split; [apply prefix_nil|done]. }
  destruct (write fs user 0) as [e|]; simpl.
  { split; [apply prefix_cons, prefix_nil|done]. }
  pose proof (write_rows_prefix user (range _ (UserStats.Projects stat)) 1) as [_ Hrows].
  destruct (write_rows user 1 (range _ (UserStats.Projects stat))) as [rows [e|]]; simpl.
  { split; [apply prefix_cons, prefix_nil|done]. }
  destruct (export_users entries) as [files err]. simpl in *.
  destruct IH as [Hpre Hall]. split.
  - by apply prefix_cons.
  - intros Herr. unfold file_of at 1. simpl. by rewrite Hrows, Hall.
Qed.

(** X13. The export creates the files in the order in which it visits the
    authors and stops at the first failure it is told of: the authors of the
    files created are an initial part of the authors visited; when
    [os.MkdirAll] fails no file is created and its error is returned; when
    the export returns no error a file was created for every author. *)
Theorem export_stops_at_first_failure (stats : gmap string UserStats.t)
    (startDate endDate : string) :
  let result := ExportStatsToCSV stats startDate endDate in
  result.1.*1 `prefix_of` (range _ stats).*1 ∧
  (∀ e, mkdir_all fs = Some e → result = ([], Some (ExportError e))) ∧
  (result.2 = None → result.1.*1 = (range _ stats).*1).
Proof.
  unfold Excel.ExportStatsToCSV. destruct (mkdir_all fs) as [e|]; simpl.
  - split; [apply prefix_nil|]. split; [by intros e' [= <-]|done].
  - destruct (export_users_prefix (range _ stats)) as [Hpre Hall].
    split; [done|]. split; [done|].
    intros Herr. rewrite (Hall Herr). rewrite <-list_fmap_compose.
    by apply list_fmap_ext.
Qed.


End export_facts.


Lemma export_stops_at_first_failure_witness :
  Excel.ExportStatsToCSV Examples.in_map_order Examples.read_only_disk
    [ProjectInfo.mk "1" "parser" "tools/parser"] Examples.stats_A
    "2024-01-01" "2024-01-31"
  = ([], Some (ExportError (IOError "read-only file system"))).
Proof.
  apply (proj1 (proj2 (export_stops_at_first_failure
                         Examples.in_map_order Examples.read_only_disk
                         [ProjectInfo.mk "1" "parser" "tools/parser"] Examples.stats_A
                         "2024-01-01" "2024-01-31"))).
  reflexivity.
Defined.

(** X15. The name and path of a row are those of the first entry of the
    project file with the row's project ID; a project ID that the project
    file does not list gets an empty name and an empty path. *)
Theorem find_project_first_match (projects : list ProjectInfo.t) (projectID : string) :
  ((∀ p, p ∈ projects → ProjectInfo.ID p ≠ projectID) →
   Excel.find_project projects projectID = (""%string, ""%string)) ∧
  (∀ before p after,
     projects = before ++ p :: after →
     ProjectInfo.ID p = projectID →
     (∀ q, q ∈ before → ProjectInfo.ID q ≠ projectID) →
     Excel.find_project projects projectID
     = (ProjectInfo.Name p, ProjectInfo.PathWithNamespace p)).
Proof.
  split.
  - induction projects as [|q projects IH]; intros Hno; simpl; [done|].
    rewrite decide_False by (apply Hno; left). apply IH.
    intros p Hp. apply Hno. by right.
  - intros before p after -> Hid Hbefore.
    induction before as [|q before IH]; simpl.
    + by rewrite decide_True.
    + rewrite decide_False by (apply Hbefore; left). apply IH.
      intros q' Hq'. apply Hbefore. by right.
Qed.

Lemma find_project_first_match_witness :
  Excel.find_project
    [ProjectInfo.mk "1" "parser" "tools/parser"; ProjectInfo.mk "2" "lexer" "tools/lexer";
     ProjectInfo.mk "2" "copy" "old/lexer"] "2"
  = ("lexer"%string, "tools/lexer"%string) ∧
  Excel.find_project [ProjectInfo.mk "1" "parser" "tools/parser"] "7"
  = (""%string, ""%string).
Proof.
  split.
  - apply (proj2 (find_project_first_match _ "2")
             [ProjectInfo.mk "1" "parser" "tools/parser"]
             (ProjectInfo.mk "2" "lexer" "tools/lexer")
             [ProjectInfo.mk "2" "copy" "old/lexer"]); [reflexivity|reflexivity|].
    intros q Hq. apply elem_of_cons in Hq as [->|Hq]; [discriminate|].
    by apply elem_of_nil in Hq.
  - apply (proj1 (find_project_first_match _ "7")).
    intros p Hp. apply elem_of_cons in Hp as [->|Hp]; [discriminate|].
    by apply elem_of_nil in Hp.
Defined.

(** ** The allow-list in the files of [analyze] *)

Section analyze_export.

Variable parse_date : string → bool.
Variable Split : string → string → list string.
Variable TrimSpace : string → string.
Variable GetProjectsFromExcel : string → list ProjectInfo.t + error.
Variable decode_commits : string → option (list Commit.t).
Variable decode_commit : string → option Commit.t.
Variable range : ∀ A : Type, gmap string A → list (string * A).
Variable remotes : nat → remote.
Variable fs : filesystem.
Variable fuel : nat.
Variables projects startDate endDate projectFile TARGET_USERS : string.

(** X16. When [analyze] returns normally, every file it has written
    belongs to an author of the merged statistics, and with a non-empty
    [TARGET_USERS] to one of the listed users: no file is written for an
    author outside the allow-list. *)
Theorem analyze_exports_only_targets (warnings : list (string * error))
    (mergedStats : gmap string UserStats.t) (files : list (string * list Row.t)) :
  enumerates range →
  Analyze.analyzeCmd parse_date Split TrimSpace GetProjectsFromExcel
    decode_commits decode_commit range remotes fs fuel
    projects startDate endDate projectFile TARGET_USERS
  = Finished warnings mergedStats files →
  ∀ user rows, (user, rows) ∈ files →
    is_Some (mergedStats !! user) ∧
    (Analyze.targetUsers Split TrimSpace TARGET_USERS = [] ∨
     user ∈ Analyze.targetUsers Split TrimSpace TARGET_USERS).
Proof.
  intros Hrange. unfold Analyze.analyzeCmd.
  destruct (negb (parse_date startDate)); [done|].
  destruct (negb (parse_date endDate)); [done|].
  destruct (GetProjectsFromExcel projectFile) as [projectsInfo|]; [|done].
  destruct (Analyze.run_projects _ _ _ _ _ _ _ _ _ _ _)
    as [| |projectsStats ws]; [done|done|].
  set (merged := Merge.MergeProjectStats range projectsStats
                   (Analyze.targetUsers Split TrimSpace TARGET_USERS)).
  pose proof (export_users_prefix range fs projectsInfo (range _ merged)) as [_ Hall].
  unfold Excel.ExportStatsToCSV. destruct (mkdir_all fs); [done|].
  destruct (Excel.export_users range fs projectsInfo (range _ merged))
    as [written [e|]]; [done|].
  simpl in Hall. specialize (Hall eq_refl).
  intros [= <- <- <-] user rows Hin. rewrite Hall in Hin.
  apply list_elem_of_fmap in Hin as ([user' stat] & Heq & Hentry).
  unfold file_of in Heq. simpl in Heq. injection Heq as -> _.
  rewrite (Hrange _ merged) in Hentry. apply elem_of_map_to_list in Hentry.
  assert (is_Some (merged !! user')) as Hsome by (by eexists).
  split; [done|]. unfold merged, Merge.MergeProjectStats in Hsome.
  apply merge_fold_is_Some in Hsome; [|done].
  destruct Hsome as [Hempty|[Hal _]].
  - rewrite lookup_empty in Hempty. by destruct Hempty.
  - by apply allowed_targetUsersMap.
Qed.

End analyze_export.

Lemma analyze_exports_only_targets_witness :
  is_Some (({[ "alice"%string :=
                 UserStats.mk 13 6 21 19 {[ "42"%string := ProjectStats.mk 13 6 21 ]} ]}
            : gmap string UserStats.t) !! "alice"%string) ∧
  (Analyze.targetUsers Examples.Split Examples.TrimSpace "alice, bob" = [] ∨
   "alice"%string ∈ Analyze.targetUsers Examples.Split Examples.TrimSpace "alice, bob").
Proof.
  apply (analyze_exports_only_targets
           Examples.parse_date Examples.Split Examples.TrimSpace
           Examples.read_projects Examples.decode_commits Examples.decode_commit
           Examples.in_map_order Examples.remotes_mixed Examples.disk 4
           "42, 43" "2024-01-01" "2024-01-31" "projects.xlsx" "alice, bob"
           [("43"%string, ListFetchError 1 (RequestError "connection refused"))]
           _
           [("alice"%string, [Row.mk "alice" "parser" "tools/parser" 13 6 21 19])]
           ltac:(by intros A m) ltac:(vm_compute; reflexivity)
           "alice"%string [Row.mk "alice" "parser" "tools/parser" 13 6 21 19]).
  left.
Defined.

(** ** [truncateString] *)

Lemma slice_runes_to_ok (runes : list rune) (n : Z) :
  0 ≤ n ≤ Z.of_nat (length runes) →
  slice_runes_to runes n = Ok (take (Z.to_nat n) runes).
Proof.
  intros Hn. unfold slice_runes_to.
  destruct (0 <=? n) eqn:H0; [|lia]. destruct (n <=? _) eqn:H1; [done|lia].
Qed.

(** X17. With a limit of at least three runes [truncateString] never
    panics and returns at most [maxLen] runes: the string itself when it
    fits, otherwise its first [maxLen - 3] runes followed by three dots.
    Truncating the result again changes nothing. *)
Theorem truncateString_bound (s : list rune) (maxLen : Z) :
  3 ≤ maxLen ≤ int_max →
  ∃ r,
    truncateString s maxLen = Ok r ∧
    Z.of_nat (length r) ≤ maxLen ∧
    (Z.of_nat (length s) ≤ maxLen → r = s) ∧
    (maxLen < Z.of_nat (length s) → r = take (Z.to_nat (maxLen - 3)) s ++ dots) ∧
    truncateString r maxLen = Ok r.
Proof.
  intros Hmax. unfold truncateString.
  destruct (Z.of_nat (length s) <=? maxLen) eqn:Hfit.
  - apply Z.leb_le in Hfit. exists s. rewrite (proj2 (Z.leb_le _ _) Hfit).
    repeat split; try done. lia.
  - apply Z.leb_gt in Hfit.
    rewrite wrap_exact by (unfold in_int, int_min, int_max in *; lia).
    rewrite slice_runes_to_ok by lia. unfold mbind, exec_bind.
    assert (Z.of_nat (length (take (Z.to_nat (maxLen - 3)) s ++ dots)) = maxLen) as Hlen.
    { rewrite length_app, length_take. simpl. lia. }
    eexists. split; [done|]. rewrite Hlen.
    repeat split; try done; try lia.
    by rewrite (proj2 (Z.leb_le _ _) (Z.le_refl _)).
Qed.

Lemma truncateString_bound_witness :
  ∃ r,
    truncateString [71; 105; 116; 108; 97; 98] 5 = Ok r ∧
    Z.of_nat (length r) ≤ 5 ∧
    (Z.of_nat (length [71; 105; 116; 108; 97; 98 : rune]) ≤ 5 →
     r = [71; 105; 116; 108; 97; 98]) ∧
    (5 < Z.of_nat (length [71; 105; 116; 108; 97; 98 : rune]) →
     r = take (Z.to_nat (5 - 3)) [71; 105; 116; 108; 97; 98] ++ dots) ∧
    truncateString r 5 = Ok r.
Proof.
  apply (truncateString_bound [71; 105; 116; 108; 97; 98] 5).
  unfold int_max. lia.
Defined.

(** X18. [truncateString] panics exactly when the string has more than
    [maxLen] runes and [maxLen] is below three, so that the slice bound
    [maxLen - 3] is negative. *)
Theorem truncateString_panics (s : list rune) (maxLen : Z) :
  int_min + 3 ≤ maxLen ≤ int_max →
  truncateString s maxLen = Panic ↔ maxLen < Z.of_nat (length s) ∧ maxLen < 3.
Proof.
  intros Hmax. unfold truncateString.
  destruct (Z.of_nat (length s) <=? maxLen) eqn:Hfit.
  { apply Z.leb_le in Hfit. split; [done|]. lia. }
  apply Z.leb_gt in Hfit.
  rewrite wrap_exact by (unfold in_int, int_min, int_max in *; lia).
  unfold slice_runes_to, mbind, exec_bind.
  destruct (0 <=? maxLen - 3) eqn:H0; simpl.
  - destruct (maxLen - 3 <=? Z.of_nat (length s)) eqn:H1; [|lia].
    split; [done|]. lia.
  - split; [|done]. lia.
Qed.

Lemma truncateString_panics_witness :
  truncateString [71; 105; 116] 2 = Panic ↔
  2 < Z.of_nat (length [71; 105; 116 : rune]) ∧ 2 < 3.
Proof.
  apply (truncateString_panics [71; 105; 116] 2).
  unfold int_min, int_max. lia.
Defined.

(** ** [GetProjects] *)

Section projects_facts.

Variable J : Type.
Variable unmarshal : string → option (list J).
Variable marshal : list J → option string.
Variable Atoi : string → Z.
Variable Itoa : Z → string.
Variable fetch_projects : gmap string string → nat → response.

Local Abbreviation pages_loop' := (pages_loop J unmarshal marshal Atoi Itoa fetch_projects).
Local Abbreviation GetProjects' := (GetProjects J unmarshal marshal Atoi Itoa fetch_projects).
Local Abbreviation GetProjects_on' :=
  (GetProjects_on J unmarshal marshal Atoi Itoa fetch_projects).
Local Abbreviation page_string' := (page_string Itoa).
Local Abbreviation params_at' := (params_at Itoa).
Local Abbreviation projects_page' := (projects_page J unmarshal Itoa fetch_projects).
Local Abbreviation gathered_at' := (gathered_at J unmarshal).

Section with_laws.

Hypothesis decimal : decimal_laws Atoi Itoa.
Hypothesis round_trip : json_round_trip J unmarshal marshal.

Lemma page_string_Atoi (k : Z) : 1 ≤ k → Atoi (page_string' k) = k.
Proof.
  intros Hk. unfold page_string. destruct decimal as [Hone Hrt].
  case_decide as Hk1; [by subst|]. apply Hrt. lia.
Qed.

Lemma page_string_not_one (k : Z) : 2 ≤ k → page_string' k ≠ "1"%string.
Proof.
  intros Hk Heq. pose proof (page_string_Atoi k ltac:(lia)) as Hrt.
  rewrite Heq in Hrt. destruct decimal as [Hone _]. lia.
Qed.

Lemma params_at_page (base : gmap string string) (k : Z) :
  default ""%string (params_at' base k !! "page"%string) = page_string' k.
Proof. unfold params_at. by rewrite lookup_insert_eq. Qed.

Lemma params_at_next (base : gmap string string) (k : Z) :
  1 ≤ k < int_max →
  <["page"%string := Itoa (Atoi (page_string' k) +! 1)]> (params_at' base k)
  = params_at' base (k + 1).
Proof.
  intros Hk. unfold params_at. rewrite insert_insert_eq.
  rewrite page_string_Atoi by lia.
  rewrite int_add_exact by (unfold in_int, int_min, int_max in *; lia).
  unfold page_string. by rewrite decide_False by lia.
Qed.

(** One turn of the loop on a page with projects. *)
Lemma pages_loop_nonempty (base : gmap string string) (k : Z)
    (allProjects : option string) (gathered projects : list J) (fuel : nat) :
  1 ≤ k < int_max →
  gathered_at' k allProjects gathered →
  projects_page' base k projects → projects ≠ [] →
  ∃ allProjects',
    pages_loop' (S fuel) (params_at' base k) allProjects
    = pages_loop' fuel (params_at' base (k + 1)) allProjects' ∧
    gathered_at' (k + 1) allProjects' (gathered ++ projects).
Proof.
  intros Hk Hgot (body & Hbody & Hdec) Hne.
  cbn [pages_loop]. rewrite Hbody, Hdec, params_at_page.
  assert ((length projects =? 0)%nat = false) as Hlen0.
  { destruct projects; [done|]. done. }
  assert ((0 <? length projects)%nat = true) as Hlen1.
  { destruct projects; [done|]. done. }
  destruct Hgot as [(-> & -> & ->)|(Hk2 & bytes & -> & Hbytes)].
  - change (page_string' 1) with "1"%string at 1. rewrite decide_True by done.
    rewrite Hlen0. exists (Some body). split.
    + by rewrite <-(params_at_next base 1) by lia.
    + right. split; [lia|]. by exists body.
  - rewrite decide_False by (by apply page_string_not_one).
    rewrite Hlen1. simpl. rewrite Hbytes.
    destruct (round_trip (gathered ++ projects)) as (bytes' & -> & Hbytes').
    rewrite Hlen0. exists (Some bytes'). split.
    + by rewrite params_at_next.
    + right. split; [lia|]. by exists bytes'.
Qed.

(** The turns of the loop over a run of pages with projects. *)
Lemma pages_loop_through (base : gmap string string) (pages : list (list J)) (k : Z)
    (allProjects : option string) (gathered : list J) (fuel : nat) :
  1 ≤ k → k + Z.of_nat (length pages) ≤ int_max →
  gathered_at' k allProjects gathered →
  (∀ i projects, pages !! i = Some projects →
                 projects_page' base (k + Z.of_nat i) projects ∧ projects ≠ []) →
  ∃ allProjects',
    pages_loop' (length pages + fuel) (params_at' base k) allProjects
    = pages_loop' fuel (params_at' base (k + Z.of_nat (length pages))) allProjects' ∧
    gathered_at' (k + Z.of_nat (length pages)) allProjects' (gathered ++ concat pages).
Proof.
  revert k allProjects gathered.
  induction pages as [|projects pages IH]; intros k allProjects gathered Hk Hmax Hgot Hpages.
  { exists allProjects. simpl. by rewrite Z.add_0_r, app_nil_r. }
  simpl in Hmax.
  destruct (Hpages 0%nat projects eq_refl) as [Hpage Hne]. rewrite Z.add_0_r in Hpage.
  destruct (pages_loop_nonempty base k allProjects gathered projects
              (length pages + fuel) ltac:(lia) Hgot Hpage Hne) as (acc & Hstep & Hacc).
  destruct (IH (k + 1) acc (gathered ++ projects) ltac:(lia) ltac:(lia) Hacc)
    as (acc' & Hrest & Hacc').
  { intros i l Hi. replace (k + 1 + Z.of_nat i) with (k + Z.of_nat (S i)) by lia.
    by apply Hpages. }
  exists acc'. cbn [length concat Nat.add]. rewrite Hstep, Hrest.
  replace (k + 1 + Z.of_nat (length pages)) with (k + Z.of_nat (S (length pages)))
    in * by lia.
  split; [done|]. by rewrite <-app_assoc in Hacc'.
Qed.

(** X19. Called on a map that is not nil and holds no page parameter,
    [GetProjects] starts from page 1 and, when every page up to the first
    page without projects is obtained and decodes, returns bytes that decode
    to all the projects of those pages, in the order of the pages. Called on
    the nil map it panics on writing the first default. *)
Theorem GetProjects_gathers_all_pages (params : gmap string string)
    (pages : list (list J)) (fuel : nat) :
  params !! "page"%string = None →
  (∀ i projects, pages !! i = Some projects →
                 projects_page' (with_defaults params) (1 + Z.of_nat i) projects
                 ∧ projects ≠ []) →
  projects_page' (with_defaults params) (1 + Z.of_nat (length pages)) [] →
  1 + Z.of_nat (length pages) ≤ int_max →
  (length pages < fuel)%nat →
  (∃ bytes,
     GetProjects_on' fuel (Some params) = Ok (ProjectsOk (Some bytes)) ∧
     unmarshal bytes = Some (concat pages)) ∧
  GetProjects_on' fuel None = Panic.
Proof.
  intros Hnopage Hpages Hlast Hmax Hfuel. split; [|done].
  cbn [GetProjects_on].
  set (base := with_defaults params) in *.
  assert (base !! "page"%string = Some "1"%string) as Hbase.
  { unfold base, with_defaults.
    destruct (params !! "per_page"%string); simpl.
    - by rewrite Hnopage, lookup_insert_eq.
    - rewrite lookup_insert_ne by done. by rewrite Hnopage, lookup_insert_eq. }
  assert (params_at' base 1 = base) as Hfirst.
  { unfold params_at. by apply insert_id. }
  unfold GetProjects. fold base. rewrite <-Hfirst.
  replace fuel with (length pages + S (fuel - S (length pages)))%nat by lia.
  destruct (pages_loop_through base pages 1 None [] (S (fuel - S (length pages))))
    as (acc & -> & Hacc); [lia|lia|by left|done|].
  destruct Hlast as (body & Hbody & Hdec).
  cbn [pages_loop]. rewrite Hbody, Hdec, params_at_page.
  cbn [length Nat.eqb Nat.ltb Nat.leb].
  destruct Hacc as [(Hk & -> & Hnil)|(Hk & bytes & -> & Hbytes)].
  - assert (pages = []) as -> by (destruct pages; [done|simpl in Hk; lia]).
    exists body. split; [|done].
    f_equal; by rewrite decide_True by (by rewrite Hk).
  - rewrite decide_False by (by apply page_string_not_one).
    by exists bytes.
Qed.

(** X21. Called on a map that is not nil and holds no page parameter, when
    a page fails on all five attempts after the pages before it were
    obtained, [GetProjects] returns the error of that page and none of the
    projects gathered so far. Called on the nil map it panics on writing the
    first default. *)
Theorem GetProjects_fails_closed (params : gmap string string)
    (pages : list (list J)) (fuel : nat) (e : error) :
  params !! "page"%string = None →
  (∀ i projects, pages !! i = Some projects →
                 projects_page' (with_defaults params) (1 + Z.of_nat i) projects
                 ∧ projects ≠ []) →
  all_fail (fetch_projects
              (params_at' (with_defaults params) (1 + Z.of_nat (length pages)))) e →
  1 + Z.of_nat (length pages) ≤ int_max →
  (length pages < fuel)%nat →
  GetProjects_on' fuel (Some params)
  = Ok (ProjectsError (PageFetchError (page_string' (1 + Z.of_nat (length pages))) e)) ∧
  GetProjects_on' fuel None = Panic.
Proof.
  intros Hnopage Hpages Hlast Hmax Hfuel. split; [|done].
  cbn [GetProjects_on]. f_equal.
  set (base := with_defaults params) in *.
  assert (base !! "page"%string = Some "1"%string) as Hbase.
  { unfold base, with_defaults.
    destruct (params !! "per_page"%string); simpl.
    - by rewrite Hnopage, lookup_insert_eq.
    - rewrite lookup_insert_ne by done. by rewrite Hnopage, lookup_insert_eq. }
  assert (params_at' base 1 = base) as Hfirst.
  { unfold params_at. by apply insert_id. }
  unfold GetProjects. fold base. rewrite <-Hfirst.
  replace fuel with (length pages + S (fuel - S (length pages)))%nat by lia.
  destruct (pages_loop_through base pages 1 None [] (S (fuel - S (length pages))))
    as (acc & -> & Hacc); [lia|lia|by left|done|].
  cbn [pages_loop]. apply attempts_failed in Hlast.
  by rewrite Hlast, params_at_page.
Qed.

End with_laws.

(** X20. [GetProjects] gathers pages only when it starts at page 1: called
    with another page parameter, it fails on decoding the bytes gathered so
    far, of which there are none, as soon as the page it requests holds a
    project, and returns no bytes and no error when that page is empty. *)
Theorem GetProjects_from_later_page (params : gmap string string) (page body : string)
    (projects : list J) (fuel : nat) :
  params !! "page"%string = Some page → page ≠ "1"%string →
  attempts (fetch_projects (with_defaults params)) 0 maxRetries (Body "") = Body body →
  unmarshal body = Some projects →
  GetProjects' (S fuel) params
  = if decide (projects = []) then ProjectsOk None
    else ProjectsError ExistingDecodeError.
Proof.
  intros Hpage Hne Hbody Hdec. unfold GetProjects.
  assert (with_defaults params !! "page"%string = Some page) as Hbase.
  { unfold with_defaults. destruct (params !! "per_page"%string); simpl.
    - by rewrite Hpage.
    - rewrite lookup_insert_ne by done. rewrite Hpage.
      by rewrite lookup_insert_ne by done. }
  cbn [pages_loop]. rewrite Hbody, Hdec, Hbase. simpl.
  rewrite decide_False by done.
  by destruct projects as [|p projects].
Qed.

End projects_facts.

Lemma example_decimal_laws : decimal_laws Examples.Atoi Examples.Itoa.
Proof.
  split; [reflexivity|]. intros k _. unfold Examples.Atoi, Examples.Itoa.
  rewrite NilEmpty.isi. apply DecimalZ.of_to.
Qed.

Lemma example_json_round_trip :
  json_round_trip ascii Examples.unmarshal_chars Examples.marshal_chars.
Proof.
  intros l. exists (string_of_list_ascii l). split; [done|].
  unfold Examples.unmarshal_chars. by rewrite list_ascii_of_string_of_list_ascii.
Qed.

Lemma GetProjects_gathers_all_pages_witness :
  (∃ bytes,
     GetProjects_on ascii Examples.unmarshal_chars Examples.marshal_chars
       Examples.Atoi Examples.Itoa Examples.projects_server 3 (Some ∅)
     = Ok (ProjectsOk (Some bytes)) ∧
     Examples.unmarshal_chars bytes = Some ["a"; "b"; "c"]%char) ∧
  GetProjects_on ascii Examples.unmarshal_chars Examples.marshal_chars
    Examples.Atoi Examples.Itoa Examples.projects_server 3 None
  = Panic.
Proof.
  apply (GetProjects_gathers_all_pages ascii Examples.unmarshal_chars
           Examples.marshal_chars Examples.Atoi Examples.Itoa Examples.projects_server
           example_decimal_laws example_json_round_trip
           ∅ [["a"; "b"]; ["c"]]%char 3%nat).
  - reflexivity.
  - intros [|[|i]] projects Hi; try discriminate; injection Hi as <-.
    + split; [|discriminate]. exists "ab"%string. split; reflexivity.
    + split; [|discriminate]. exists "c"%string. split; reflexivity.
  - exists ""%string. split; reflexivity.
  - unfold int_max. simpl. lia.
  - simpl. lia.
Defined.

Lemma GetProjects_fails_closed_witness :
  GetProjects_on ascii Examples.unmarshal_chars Examples.marshal_chars
    Examples.Atoi Examples.Itoa Examples.projects_page2_down 3 (Some ∅)
  = Ok (ProjectsError (PageFetchError "2" (RequestError "502"))) ∧
  GetProjects_on ascii Examples.unmarshal_chars Examples.marshal_chars
    Examples.Atoi Examples.Itoa Examples.projects_page2_down 3 None
  = Panic.
Proof.
  apply (GetProjects_fails_closed ascii Examples.unmarshal_chars
           Examples.marshal_chars Examples.Atoi Examples.Itoa
           Examples.projects_page2_down
           example_decimal_laws example_json_round_trip
           ∅ [["a"; "b"]]%char 3%nat (RequestError "502")).
  - reflexivity.
  - intros [|i] projects Hi; try discriminate; injection Hi as <-.
    split; [|discriminate]. exists "ab"%string. split; reflexivity.
  - split; [|reflexivity]. intros j _. eexists. reflexivity.
  - unfold int_max. simpl. lia.
  - simpl. lia.
Defined.

Lemma GetProjects_from_later_page_witness :
  GetProjects ascii Examples.unmarshal_chars Examples.marshal_chars
    Examples.Atoi Examples.Itoa Examples.projects_server 1
    {[ "page"%string := "2"%string ]}
  = ProjectsError ExistingDecodeError.
Proof.
  apply (GetProjects_from_later_page ascii Examples.unmarshal_chars
           Examples.marshal_chars Examples.Atoi Examples.Itoa Examples.projects_server
           {[ "page"%string := "2"%string ]} "2" "c" ["c"]%char 0%nat);
    [reflexivity|discriminate|reflexivity|reflexivity].
Defined.

(** ** The project file *)

Lemma rows_loop_data (rows : list (list string)) (i : nat) :
  (0 < i)%nat → ExcelFile.rows_loop i rows = Ok (omap row_project rows).
Proof.
  revert i. induction rows as [|row rows IH]; intros i Hi; simpl; [done|].
  destruct (i =? 0)%nat eqn:Hi0; [apply Nat.eqb_eq in Hi0; lia|].
  rewrite IH by lia.
  destruct row as [|id [|name [|path rest]]]; simpl; done.
Qed.

(** X22. Reading the project file never panics. On a sheet it never fails
    either: the first row is skipped as the header, every other row with at
    least three cells gives a project with those cells as ID, name and path,
    in the order of the rows, and shorter rows are skipped; a sheet without
    data rows gives no project. *)
Theorem GetProjectsFromExcel_rows (rows : list (list string)) :
  ExcelFile.GetProjectsFromExcel (Sheet rows)
  = Ok (inl (omap row_project (tail rows))).
Proof.
  unfold ExcelFile.GetProjectsFromExcel. destruct rows as [|header rows]; [done|].
  cbn [ExcelFile.rows_loop Nat.eqb tail]. by rewrite rows_loop_data by lia.
Qed.

(** ** One project *)

Lemma bump_in_int (projectID : string) (u : UserStats.t) (diff : CommitStats.t) :
  (∀ k p, UserStats.Projects u !! k = Some p → project_in_int p) →
  user_in_int (bump projectID u diff).
Proof.
  intros Hu. unfold user_in_int, bump. simpl.
  repeat (split; [apply int_add_in_int|]).
  intros k p. destruct (decide (k = projectID)) as [->|Hne].
  - rewrite lookup_insert_eq. intros [= <-]. unfold project_in_int. simpl.
    repeat split; apply int_add_in_int.
  - rewrite lookup_insert_ne by done. apply Hu.
Qed.

Lemma run_in_int (projectID : string) (works : list commitWork.t) (st : Reducer.state) :
  (∀ a u, Reducer.stats st !! a = Some u → user_in_int u) →
  ∀ a u, Reducer.stats (Reducer.run projectID st works) !! a = Some u → user_in_int u.
Proof.
  unfold Reducer.run.
  revert st. induction works as [|work works IH]; intros st Hinv; simpl; [done|].
  apply IH. destruct (Reducer.counts st work) eqn:Hc.
  - rewrite step_counts by done. simpl. intros a u. rewrite account_lookup.
    case_decide as Ha; [|apply Hinv]. intros [= <-]. apply bump_in_int.
    unfold user_at. destruct (Reducer.stats st !! _) as [old|] eqn:Hold; simpl.
    + by destruct (Hinv _ old Hold) as (_ & _ & _ & _ & Hp).
    + intros k p. by rewrite lookup_empty.
  - by rewrite (proj1 (step_drops projectID st work Hc)).
Qed.

(** X23. Merging the result of a single successful project run, without an
    allow-list, gives that result back unchanged. *)
Theorem merge_single_run (decode_commits : string → option (list Commit.t))
    (decode_commit : string → option Commit.t) (fetch : transport)
    (arrival : list commitWork.t → list commitWork.t)
    (projectID startDate endDate : string) (fuel : nat)
    (range : ∀ A : Type, gmap string A → list (string * A))
    (stats : gmap string UserStats.t) :
  enumerates range →
  Pipeline.GetProjectCommitStats decode_commits decode_commit fetch arrival
    projectID startDate endDate fuel = Stats stats →
  Merge.MergeProjectStats range [stats] [] = stats.
Proof.
  intros Hrange. unfold Pipeline.GetProjectCommitStats.
  destruct (Pipeline.lister _ _ _ _ _ _ _) as [[commits fatal]|]; [|done].
  destruct (Pipeline.workers _ _ _ _ _) as [works|]; [|done].
  destruct fatal; [done|]. intros [= <-].
  unfold Merge.MergeProjectStats. simpl.
  apply merge_stats_empty; [done|].
  intros a u Hu. split; [done|].
  apply (run_in_int projectID (arrival works) Reducer.init) with a; [|done].
  intros a' u'. simpl. by rewrite lookup_empty.
Qed.

Lemma merge_single_run_witness :
  Merge.MergeProjectStats Examples.in_map_order
    [Reducer.stats
       (Reducer.run "42" Reducer.init
          [Examples.ok Examples.commit0 Examples.diff_a;
           Examples.ok Examples.commit1 Examples.diff_b;
           Examples.ok Examples.commit2 Examples.diff_b])] []
  = Reducer.stats
      (Reducer.run "42" Reducer.init
         [Examples.ok Examples.commit0 Examples.diff_a;
          Examples.ok Examples.commit1 Examples.diff_b;
          Examples.ok Examples.commit2 Examples.diff_b]).
Proof.
  apply (merge_single_run Examples.decode_commits Examples.decode_commit
           Examples.healthy Examples.in_order "42" "2024-01-01" "2024-01-31" 4%nat
           Examples.in_map_order).
  - by intros A m.
  - reflexivity.
Defined.

(** ** The project file of excel.go *)

Lemma index_headers_lookup (headers : list string) (i : nat)
    (columnMap : gmap string nat) (col : string) (v : nat) :
  RootExcel.index_headers i headers columnMap !! col = Some v →
  columnMap !! col = Some v ∨ (v < i + length headers)%nat.
Proof.
  revert i columnMap. induction headers as [|header rest IH]; intros i columnMap; simpl.
  { by left. }
  intros Hv. apply IH in Hv as [Hv|Hv]; [|right; lia].
  destruct (decide (header = col)) as [->|Hne].
  - rewrite lookup_insert_eq in Hv. injection Hv as <-. right. lia.
  - rewrite lookup_insert_ne in Hv by done. by left.
Qed.

Lemma index_headers_is_Some (headers : list string) (i : nat)
    (columnMap : gmap string nat) (col : string) :
  is_Some (RootExcel.index_headers i headers columnMap !! col) ↔
  is_Some (columnMap !! col) ∨ col ∈ headers.
Proof.
  revert i columnMap. induction headers as [|header rest IH]; intros i columnMap; simpl.
  { split; [by left|]. intros [?|Hin]; [done|]. by apply elem_of_nil in Hin. }
  rewrite IH. destruct (decide (header = col)) as [->|Hne].
  - rewrite lookup_insert_eq. split; [intros _; right; left|intros _; left; by eexists].
  - rewrite lookup_insert_ne by done. split.
    + intros [?|?]; [by left|right; by right].
    + intros [?|Hin]; [by left|]. apply elem_of_cons in Hin as [?|?]; [done|by right].
Qed.

Lemma first_missing_None (columnMap : gmap string nat) (cols : list string) :
  RootExcel.first_missing columnMap cols = None ↔
  ∀ col, col ∈ cols → is_Some (columnMap !! col).
Proof.
  induction cols as [|col cols IH]; simpl.
  { split; [|done]. intros _ c Hc. by apply elem_of_nil in Hc. }
  destruct (columnMap !! col) as [v|] eqn:Hcol.
  - rewrite IH. split.
    + intros Hall c Hc. apply elem_of_cons in Hc as [->|Hc]; [by eexists|by apply Hall].
    + intros Hall c Hc. apply Hall. by right.
  - split; [done|]. intros Hall. destruct (Hall col) as [v Hv]; [left|]. congruence.
Qed.

Lemma first_missing_Some (columnMap : gmap string nat) (cols : list string)
    (col : string) :
  RootExcel.first_missing columnMap cols = Some col ↔
  ∃ before after, cols = before ++ col :: after ∧ columnMap !! col = None ∧
                  ∀ c, c ∈ before → is_Some (columnMap !! c).
Proof.
  induction cols as [|c cols IH]; simpl.
  { split; [done|]. intros (before & after & Heq & _). by destruct before. }
  destruct (columnMap !! c) as [v|] eqn:Hc.
  - rewrite IH. split.
    + intros (before & after & -> & Hnone & Hall). exists (c :: before), after.
      split; [done|]. split; [done|]. intros c' Hc'.
      apply elem_of_cons in Hc' as [->|Hc']; [by eexists|by apply Hall].
    + intros (before & after & Heq & Hnone & Hall).
      destruct before as [|b before]; simpl in Heq; injection Heq as -> ->.
      * congruence.
      * exists before, after. split; [done|]. split; [done|].
        intros c' Hc'. apply Hall. by right.
  - split.
    + intros [= <-]. exists [], cols. split; [done|]. split; [done|].
      intros c' Hc'. by apply elem_of_nil in Hc'.
    + intros (before & after & Heq & Hnone & Hall).
      destruct before as [|b before]; simpl in Heq; injection Heq as -> ->; [done|].
      destruct (Hall b) as [v Hv]; [left|]. congruence.
Qed.

Lemma cell_in_range (row : list string) (i : nat) :
  (i < length row)%nat → ∃ c, cell row i = Ok c.
Proof.
  intros Hi. unfold cell. destruct (row !! i) as [c|] eqn:Hc; [by eexists|].
  apply lookup_ge_None in Hc. lia.
Qed.

Lemma parse_rows_no_panic (headers : list string) (columnMap : gmap string nat)
    (rows : list (list string)) :
  (∀ col, col ∈ RootExcel.requiredColumns →
          ∃ v, columnMap !! col = Some v ∧ (v < length headers)%nat) →
  ∃ projects, RootExcel.parse_rows headers columnMap rows = Ok projects.
Proof.
  intros Hcols. induction rows as [|row rows [projects IH]]; simpl; [by eexists|].
  destruct (length row <? length headers)%nat eqn:Hlen; [by eexists|].
  apply Nat.ltb_ge in Hlen.
  assert (∀ col, col ∈ RootExcel.requiredColumns →
                 ∃ c, cell row (RootExcel.column columnMap col) = Ok c) as Hcell.
  { intros col Hcol. destruct (Hcols col Hcol) as (v & Hv & Hlt).
    apply cell_in_range. unfold RootExcel.column. rewrite Hv. simpl. lia. }
  unfold RootExcel.requiredColumns in Hcell.
  destruct (Hcell RootExcel.col_id) as [id ->]; [right; left|].
  destruct (Hcell RootExcel.col_name) as [name ->]; [left|].
  destruct (Hcell RootExcel.col_group) as [namespace ->]; [right; right; left|].
  destruct (Hcell RootExcel.col_path) as [path ->]; [right; right; right; left|].
  rewrite IH. by eexists.
Qed.

(** X24. Reading the project file with the header-driven reader never
    panics: a cell is read only from a row at least as long as the header
    row, at the position of a required column in the header row. *)
Theorem root_GetProjectsFromExcel_no_panic (file_exists : bool) (file : workbook) :
  ∃ result, RootExcel.GetProjectsFromExcel file_exists file = Ok result.
Proof.
  unfold RootExcel.GetProjectsFromExcel.
  destruct (negb file_exists); [by eexists|].
  destruct file as [e|e|rows]; [by eexists|by eexists|].
  destruct (length rows <? 2)%nat eqn:Hlen; [by eexists|].
  destruct rows as [|headers data]; [done|]. cbv zeta.
  destruct (RootExcel.first_missing _ _) as [col|] eqn:Hmiss; [by eexists|].
  destruct (parse_rows_no_panic headers (RootExcel.index_headers 0 headers ∅) data)
    as [projects ->]; [|by eexists].
  intros col Hcol.
  destruct (proj1 (first_missing_None _ _) Hmiss col Hcol) as [v Hv].
  exists v. split; [done|].
  apply index_headers_lookup in Hv as [Hv|Hv]; [by rewrite lookup_empty in Hv|lia].
Qed.

(** X25. A sheet with at least two rows is rejected for a missing column
    exactly when its header row lacks one of the four required columns, and
    the error names the first of them in the order name, ID, group, path;
    the data rows play no part. *)
Theorem root_GetProjectsFromExcel_missing_column (headers : list string)
    (data : list (list string)) (col : string) :
  data ≠ [] →
  RootExcel.GetProjectsFromExcel true (Sheet (headers :: data))
  = Ok (inr (RootExcel.MissingColumn col)) ↔
  ∃ before after,
    RootExcel.requiredColumns = before ++ col :: after ∧
    (col ∉ headers) ∧ (∀ c, c ∈ before → c ∈ headers).
Proof.
  intros Hdata. unfold RootExcel.GetProjectsFromExcel. simpl negb. cbv iota.
  assert ((length (headers :: data) <? 2)%nat = false) as ->.
  { destruct data; [done|]. done. }
  cbv zeta.
  assert (∀ c, is_Some (RootExcel.index_headers 0 headers ∅ !! c) ↔ c ∈ headers) as Hin.
  { intros c. rewrite index_headers_is_Some, lookup_empty. split; [|by right].
    intros [[? ?]|?]; done. }
  destruct (RootExcel.first_missing _ _) as [c|] eqn:Hmiss.
  - split.
    + intros [= <-]. apply first_missing_Some in Hmiss
        as (before & after & Heq & Hnone & Hall).
      exists before, after. split; [done|]. split.
      * rewrite <-Hin, Hnone. by intros [? ?].
      * intros c' Hc'. by apply Hin, Hall.
    + intros (before & after & Heq & Hnot & Hall). do 2 f_equal.
      assert (RootExcel.first_missing (RootExcel.index_headers 0 headers ∅)
                RootExcel.requiredColumns = Some col) as Hcol; [|congruence].
      apply first_missing_Some. exists before, after. split; [done|]. split.
      * apply eq_None_not_Some. by rewrite Hin.
      * intros c' Hc'. by apply Hin, Hall.
  - split.
    + destruct (RootExcel.parse_rows _ _ _); done.
    + intros (before & after & Heq & Hnot & _). exfalso. apply Hnot, Hin.
      apply (proj1 (first_missing_None _ _) Hmiss). rewrite Heq.
      apply elem_of_app. right. left.
Qed.

Lemma root_GetProjectsFromExcel_missing_column_witness :
  RootExcel.GetProjectsFromExcel true
    (Sheet [[RootExcel.col_name; RootExcel.col_id; RootExcel.col_path];
            ["parser"; "42"; "tools/parser"]])
  = Ok (inr (RootExcel.MissingColumn RootExcel.col_group)).
Proof.
  apply (root_GetProjectsFromExcel_missing_column
           [RootExcel.col_name; RootExcel.col_id; RootExcel.col_path]
           [["parser"; "42"; "tools/parser"]]%string RootExcel.col_group).
  - discriminate.
  - exists [RootExcel.col_name; RootExcel.col_id], [RootExcel.col_path].
    split; [reflexivity|]. split.
    + intros Hin. repeat (apply elem_of_cons in Hin as [Heq|Hin]; [discriminate|]).
      by apply elem_of_nil in Hin.
    + intros c Hc. apply elem_of_cons in Hc as [->|Hc]; [left|].
      apply elem_of_cons in Hc as [->|Hc]; [right; left|].
      by apply elem_of_nil in Hc.
Defined.
